(** * machine_cli: instance resolution, SSM dispatch, parallel engine, remote patch

  A shallow embedding of the core of [machine_cli.py]:
  - [resolve_instances]: tokens to a duplicate-free list of instance ids;
  - [send_ssm_command]: submit one command, then sleep and poll;
  - [run_parallel]: one dispatch per instance on a thread pool, results
    gathered in completion order;
  - [action_append_after_match]: the text of the remote awk/mv script,
    with the shell's word splitting and the awk program it carries.

  A Python [str] is a [string] whose characters are code points below 256.
  The AWS services, the remote shell and awk are the environment: they
  appear as explicit arguments (the EC2 and SSM answers, the completion
  order of the pool, the regular-expression matcher of awk). *)

From stdpp Require Import base list strings gmap.
From Stdlib Require Import ZArith Ascii.

Local Open Scope Z_scope.

(* [set_solver] clears hypotheses by name where there may be none. *)
#[local] Set Warnings "-clear-no-such-hyp".

(** ** Python text helpers *)

Module Py.

(** [str.isspace] on one character with a code below 256. *)
Definition isspace (c : ascii) : bool :=
  match c with
  | "009" | "010" | "011" | "012" | "013"
  | "028" | "029" | "030" | "031" | " " | "133" | "160" => true
  | _ => false
  end%char.

Fixpoint lstrip (s : string) : string :=
  match s with
  | String c s' => if isspace c then lstrip s' else s
  | EmptyString => EmptyString
  end.

Definition rstrip (s : string) : string :=
  String.rev (lstrip (String.rev s)).

(** [s.strip()] *)
Definition strip (s : string) : string := rstrip (lstrip s).

(** [s.replace(c, by)] for a one-character needle. *)
Fixpoint replace (c : ascii) (by_ : string) (s : string) : string :=
  match s with
  | EmptyString => EmptyString
  | String a s' =>
      if Ascii.eqb a c then by_ +:+ replace c by_ s'
      else String a (replace c by_ s')
  end.

(** [\w] under [re.ASCII]. *)
Definition is_word (c : ascii) : bool :=
  let n := nat_of_ascii c in
  ((48 <=? n) && (n <=? 57) || (65 <=? n) && (n <=? 90)
   || (97 <=? n) && (n <=? 122) || (n =? 95))%nat.

Definition is_hex (c : ascii) : bool :=
  let n := nat_of_ascii c in
  ((48 <=? n) && (n <=? 57) || (65 <=? n) && (n <=? 70)
   || (97 <=? n) && (n <=? 102))%nat.

Fixpoint forallb (p : ascii → bool) (s : string) : bool :=
  match s with
  | EmptyString => true
  | String a s' => p a && forallb p s'
  end.

(** What an uncaught exception leaves instead of a value. *)
Inductive exn := ValueError (msg : string).

Inductive outcome (A : Type) :=
| Returned (a : A)
| Raised (e : exn).
Global Arguments Returned {A} a.
Global Arguments Raised {A} e.

End Py.

(** ** Instance resolver *)

Module Resolver.

(** The answer of [ec2.describe_instances] filtered on a Name tag and the
    running state: the instance ids of every reservation, or the text of
    the exception the call (or the reading of its answer) raised. *)
Definition inventory := string → string + list (list string).

(** [re.match(r"^i-[0-9a-fA-F]+$", item)]: [$] also accepts one final
    newline. *)
Fixpoint hex_tail (s : string) : bool :=
  match s with
  | EmptyString => true
  | String "010" EmptyString => true
  | String c s' => Py.is_hex c && hex_tail s'
  end.

Definition is_instance_id (item : string) : bool :=
  match item with
  | String "i" (String "-" (String c s')) => Py.is_hex c && hex_tail s'
  | _ => false
  end.

(** One turn of the first loop: the ids gathered so far and the log. *)
Definition resolve_item (ec2 : inventory) (st : list string * list string)
    (item : string) : list string * list string :=
  let '(out, logs) := st in
  let item := Py.strip item in
  if decide (item = "") then (out, logs)
  else if is_instance_id item then (out ++ [item], logs)
  else
    match ec2 item with
    | inr reservations =>
        let ids := concat reservations in
        match ids with
        | [] => (out, logs ++
              ["[WARN] No running instance found with Name tag '" +:+ item +:+ "'"])
        | _ => (out ++ ids, logs)
        end
    | inl e => (out, logs ++ ["[WARN] Error resolving '" +:+ item +:+ "': " +:+ e])
    end.

Definition gather (ec2 : inventory) (raw_list : list string)
    : list string * list string :=
  foldl (resolve_item ec2) ([], []) raw_list.

(** The second loop, [seen] being the Python set. *)
Fixpoint dedupe (seen : gset string) (out : list string) : list string :=
  match out with
  | [] => []
  | i :: out' =>
      if decide (i ∈ seen) then dedupe seen out'
      else i :: dedupe ({[i]} ∪ seen) out'
  end.

Definition resolve_instances (ec2 : inventory) (raw_list : list string)
    : list string * list string :=
  let '(out, logs) := gather ec2 raw_list in
  (dedupe ∅ out, logs).


(** An element of the result sits in [out], and nowhere before that place. *)
Definition first_at (x : string) (p : nat) (out : list string) : Prop :=
  out !! p = Some x ∧ ∀ k, (k < p)%nat → out !! k ≠ Some x.

End Resolver.

(** ** Remote command dispatcher *)

Module Dispatcher.

(** The dict a dispatch returns; [error] is the key only a failed send
    sets. *)
Record CommandResult := {
  instance : string;
  status : string;
  error : option string;
  stdout : string;
  stderr : string
}.

(** What one call of [ssm.get_command_invocation] gives: the answer with
    its [Status] key (if any) and its two output keys read with their
    [""] default, the [InvocationDoesNotExist] exception, or any other
    exception. *)
Inductive invocation :=
| Invocation (Status : option string)
             (StandardOutputContent StandardErrorContent : string)
| InvocationDoesNotExist
| OtherException.

(** The SSM client of the session. [send_command] gives the text of the
    exception raised inside the [try] or the [CommandId]; the answer to a
    poll may depend on the time elapsed since the dispatch began. *)
Record ssm_client := {
  send_command : string → string → Z → string + string;
  get_command_invocation : string → string → Z → invocation
}.

(** What a dispatch does besides computing its result. *)
Inductive event :=
| Slept (seconds : Z)
| Polled (answer : invocation).

Definition trace := list event.

Fixpoint elapsed (tr : trace) : Z :=
  match tr with
  | [] => 0
  | Slept d :: tr' => d + elapsed tr'
  | Polled _ :: tr' => elapsed tr'
  end.

Fixpoint polls (tr : trace) : nat :=
  match tr with
  | [] => 0
  | Slept _ :: tr' => polls tr'
  | Polled _ :: tr' => S (polls tr')
  end.

Fixpoint not_visible (tr : trace) : nat :=
  match tr with
  | [] => 0
  | Polled InvocationDoesNotExist :: tr' => S (not_visible tr')
  | _ :: tr' => not_visible tr'
  end.

(** [status in ("Success", "Failed", "TimedOut", "Cancelled")] *)
Definition terminal (st : option string) : bool :=
  match st with
  | Some s => bool_decide (s ∈ ["Success"; "Failed"; "TimedOut"; "Cancelled"])
  | None => false
  end.

Definition is_terminal (a : invocation) : bool :=
  match a with
  | Invocation st _ _ => terminal st
  | _ => false
  end.

(** [int(timeout_seconds / 2)] turns of the loop; [range] of a negative
    number is empty. Halving an integer of magnitude up to 2^53 is exact
    in floating point and [int] truncates toward zero. *)
Definition poll_budget (timeout_seconds : Z) : nat :=
  Z.to_nat (Z.quot timeout_seconds 2).

Definition timed_out (instance_id : string) : CommandResult :=
  {| instance := instance_id; status := "TimedOut"; error := None;
     stdout := ""; stderr := "" |}.

(** The [for] loop, [tr] being what the dispatch has done so far. *)
Fixpoint poll_loop (ssm : ssm_client) (instance_id cmd_id : string)
    (attempts : nat) (tr : trace) : CommandResult * trace :=
  match attempts with
  | O => (timed_out instance_id, tr)
  | S attempts' =>
      let tr := tr ++ [Slept 2] in
      let inv := get_command_invocation ssm cmd_id instance_id (elapsed tr) in
      let tr := tr ++ [Polled inv] in
      match inv with
      | Invocation st out err =>
          if terminal st
          then ({| instance := instance_id; status := default "" st;
                   error := None; stdout := out; stderr := err |}, tr)
          else poll_loop ssm instance_id cmd_id attempts' tr
      | InvocationDoesNotExist =>
          poll_loop ssm instance_id cmd_id attempts' (tr ++ [Slept 1])
      | OtherException =>
          poll_loop ssm instance_id cmd_id attempts' tr
      end
  end.

Definition send_ssm_command (ssm : ssm_client) (instance_id command : string)
    (timeout_seconds : Z) : CommandResult * trace :=
  match send_command ssm instance_id command timeout_seconds with
  | inl e =>
      ({| instance := instance_id; status := "FailedToSend"; error := Some e;
          stdout := ""; stderr := "" |}, [])
  | inr cmd_id =>
      poll_loop ssm instance_id cmd_id (poll_budget timeout_seconds) []
  end.

(** The statuses a result can carry. *)
Definition statuses : list string :=
  ["FailedToSend"; "Success"; "Failed"; "TimedOut"; "Cancelled"].

(** The default of the [timeout_seconds] parameter. *)
Definition default_timeout : Z := 300.

End Dispatcher.

(** ** Parallel execution engine *)

Module Engine.
Import Dispatcher.

(** [as_completed]: every future once, in the order in which they finish.
    The pool, the network and the remote hosts decide that order; here it
    is [sched], each number choosing among the futures still running.
    When [sched] is used up the rest finish in submission order. *)
Fixpoint as_completed {A} (sched : list nat) (futures : list A) : list A :=
  match sched with
  | [] => futures
  | k :: sched' =>
      match futures with
      | [] => []
      | f0 :: _ =>
          let i := (k `mod` length futures)%nat in
          nth i futures f0 :: as_completed sched' (delete i futures)
      end
  end.

Definition nl : string := String "010" "".

(** The lines [run_parallel] logs for one result. *)
Definition log_result (res : CommandResult) : list string :=
  if decide (status res = "Success") then
    ("[" +:+ instance res +:+ "] SUCCESS") ::
    (if decide (stdout res = "") then []
     else ["[" +:+ instance res +:+ "] STDOUT:" +:+ nl +:+ stdout res])
  else
    ["[" +:+ instance res +:+ "] STATUS=" +:+ status res +:+ "; STDERR:"
         +:+ nl +:+ stderr res].

(** [ThreadPoolExecutor(max_workers=concurrency)] refuses a pool without
    workers; otherwise one future per element of [instance_ids], each
    running [send_ssm_command] with the default timeout, and the results
    appended as the futures complete. The value is the result list and
    the lines logged. *)
Definition run_parallel (ssm : ssm_client) (sched : list nat)
    (instance_ids : list string) (command : string) (concurrency : Z)
    : Py.outcome (list CommandResult * list string) :=
  if concurrency <=? 0
  then Py.Raised (Py.ValueError "max_workers must be greater than 0")
  else
    let futures :=
      (λ iid, fst (send_ssm_command ssm iid command default_timeout))
        <$> instance_ids in
    let results := as_completed sched futures in
    Py.Returned (results, concat (log_result <$> results)).

(** The results of the futures, in submission order. *)
Definition dispatched (ssm : ssm_client) (ids : list string) (command : string)
    : list CommandResult :=
  (λ iid, (send_ssm_command ssm iid command default_timeout).1) <$> ids.

End Engine.

(** ** Remote patch generator *)

Module Patch.
Import Dispatcher.

(** The double quote character. *)
Definition dq : string := String "034" "".

(** The text put in place of a single quote: quote, double-quoted quote,
    quote. *)
Definition quote_escape : string := "'" +:+ dq +:+ "'" +:+ dq +:+ "'".

(** [_find_unsafe] of [shlex]: everything but [\w@%+=:,./-]. *)
Definition shlex_safe (c : ascii) : bool :=
  Py.is_word c ||
  match c with
  | "@" | "%" | "+" | "=" | ":" | "," | "." | "/" | "-" => true
  | _ => false
  end%char.

(** [shlex.quote] *)
Definition shlex_quote (s : string) : string :=
  if decide (s = "") then "''"
  else if Py.forallb shlex_safe s then s
  else "'" +:+ Py.replace "'" quote_escape s +:+ "'".

(** The awk program between the single quotes of the third literal. *)
Definition awk_program : string :=
  "BEGIN{found=0} {print} !found && $0 ~ pattern { match($0, /[^[:space:]]/); lead = (RSTART>1?substr($0,1,RSTART-1):"
  +:+ dq +:+ dq +:+ "); print lead new_line; found=1 }".

Definition tmp_redirect : string :=
  " > /tmp/tm_cli_tmp.$$ && mv /tmp/tm_cli_tmp.$$ ".

(** The local [awk_script] of [action_append_after_match]. *)
Definition awk_script (filepath match_pattern new_line : string) : string :=
  let esc_pattern := Py.replace "'" quote_escape match_pattern in
  let esc_newline := Py.replace "'" quote_escape new_line in
  "awk -v pattern='" +:+ esc_pattern +:+ "' -v new_line='" +:+ esc_newline
    +:+ ("' '" +:+ awk_program +:+ "' ")
    +:+ shlex_quote filepath +:+ tmp_redirect +:+ shlex_quote filepath.

(** The temporary file of a shell whose process id prints as [pid]. *)
Definition tmp_path (pid : string) : string := "/tmp/tm_cli_tmp." +:+ pid.

Definition action_append_after_match (ssm : ssm_client)
    (instance_id filepath match_pattern new_line : string)
    : CommandResult * trace :=
  send_ssm_command ssm instance_id
    (awk_script filepath match_pattern new_line) default_timeout.

End Patch.

(** ** The remote shell: words and operators of a command line

  The part of the POSIX shell grammar a generated command can reach.
  A construct that would make the shell substitute, expand or open
  something beyond [$$] (another [$] form, a backquote, a glob or brace
  character, a tilde, a comment, a here-document, a numbered
  redirection) is refused: the lexer gives [None]. *)

Module Shell.

Inductive op :=
| AndIf | OrIf | Semi | Amp | Pipe | Great | DGreat | Less
| LParen | RParen | Newline.

Inductive token :=
| TWord (w : string)
| TOp (o : op).

Inductive quoting := Unquoted | Single | Double.

Inductive char_class :=
| CQuote | CDQuote | CBackslash | CDollar | CBackquote | CBlank | CNewline
| CAmp | CPipe | CSemi | CGreat | CLess | CLParen | CRParen
| CHash | CGlob | CTilde | CBrace | COther.

Definition classify (c : ascii) : char_class :=
  match c with
  | "'" => CQuote
  | "034" => CDQuote
  | "\" => CBackslash
  | "$" => CDollar
  | "`" => CBackquote
  | " " | "009" => CBlank
  | "010" => CNewline
  | "&" => CAmp
  | "|" => CPipe
  | ";" => CSemi
  | ">" => CGreat
  | "<" => CLess
  | "(" => CLParen
  | ")" => CRParen
  | "#" => CHash
  | "*" | "?" | "[" => CGlob
  | "~" => CTilde
  | "{" | "}" => CBrace
  | _ => COther
  end%char.

Definition is_digit (c : ascii) : bool :=
  let n := nat_of_ascii c in ((48 <=? n) && (n <=? 57))%nat.

(** The word being read, if one has begun. *)
Definition push (cur : option string) (c : ascii) : option string :=
  Some (default "" cur +:+ String c "").

Definition push_all (cur : option string) (s : string) : option string :=
  Some (default "" cur +:+ s).

Definition open_word (cur : option string) : option string :=
  Some (default "" cur).

Definition emit (cur : option string) (rest : list token) : list token :=
  match cur with
  | Some w => TWord w :: rest
  | None => rest
  end.

(** A word of digits right before [<] or [>] is a file descriptor. *)
Definition io_number (cur : option string) : bool :=
  match cur with
  | Some (String c s) => Py.forallb is_digit (String c s)
  | _ => false
  end.

Fixpoint lex (pid : string) (q : quoting) (cur : option string) (s : string)
    : option (list token) :=
  match s with
  | EmptyString =>
      match q with
      | Unquoted => Some (emit cur [])
      | _ => None
      end
  | String c s' =>
      match q with
      | Single =>
          if Ascii.eqb c "'" then lex pid Unquoted cur s'
          else lex pid Single (push cur c) s'
      | Double =>
          match classify c with
          | CDQuote => lex pid Unquoted cur s'
          | CBackslash =>
              match s' with
              | EmptyString => None
              | String c2 s'' =>
                  match classify c2 with
                  | CDollar | CBackquote | CDQuote | CBackslash =>
                      lex pid Double (push cur c2) s''
                  | CNewline => lex pid Double cur s''
                  | _ => lex pid Double (push (push cur c) c2) s''
                  end
              end
          | CDollar =>
              match s' with
              | String c2 s'' =>
                  if Ascii.eqb c2 "$" then lex pid Double (push_all cur pid) s''
                  else None
              | EmptyString => None
              end
          | CBackquote => None
          | _ => lex pid Double (push cur c) s'
          end
      | Unquoted =>
          let operator o rest :=
            (λ r, emit cur (TOp o :: r)) <$> lex pid Unquoted None rest in
          match classify c with
          | CBlank => emit cur <$> lex pid Unquoted None s'
          | CNewline => operator Newline s'
          | CQuote => lex pid Single (open_word cur) s'
          | CDQuote => lex pid Double (open_word cur) s'
          | CBackslash =>
              match s' with
              | EmptyString => Some (emit (push cur c) [])
              | String c2 s'' =>
                  if Ascii.eqb c2 "010" then lex pid Unquoted cur s''
                  else lex pid Unquoted (push cur c2) s''
              end
          | CDollar =>
              match s' with
              | String c2 s'' =>
                  if Ascii.eqb c2 "$" then lex pid Unquoted (push_all cur pid) s''
                  else None
              | EmptyString => Some (emit (push cur c) [])
              end
          | CBackquote | CGlob | CBrace => None
          | CAmp =>
              match s' with
              | String c2 s'' =>
                  if Ascii.eqb c2 "&" then operator AndIf s'' else operator Amp s'
              | EmptyString => operator Amp s'
              end
          | CPipe =>
              match s' with
              | String c2 s'' =>
                  if Ascii.eqb c2 "|" then operator OrIf s'' else operator Pipe s'
              | EmptyString => operator Pipe s'
              end
          | CSemi => operator Semi s'
          | CGreat =>
              if io_number cur then None
              else
                match s' with
                | String c2 s'' =>
                    if Ascii.eqb c2 ">" then operator DGreat s''
                    else if Ascii.eqb c2 "&" || Ascii.eqb c2 "|" then None
                    else operator Great s'
                | EmptyString => operator Great s'
                end
          | CLess =>
              if io_number cur then None
              else
                match s' with
                | String c2 _ =>
                    if Ascii.eqb c2 "<" || Ascii.eqb c2 "&" || Ascii.eqb c2 ">"
                    then None else operator Less s'
                | EmptyString => operator Less s'
                end
          | CLParen => operator LParen s'
          | CRParen => operator RParen s'
          | CHash | CTilde =>
              match cur with
              | None => None
              | Some _ => lex pid Unquoted (push cur c) s'
              end
          | COther => lex pid Unquoted (push cur c) s'
          end
      end
  end.

(** The tokens of a command line run by a shell whose process id prints
    as [pid]. *)
Definition sh_lex (pid : string) (script : string) : option (list token) :=
  lex pid Unquoted None script.

End Shell.

(** ** The remote host: awk on the target file, then mv

  The model keeps two files apart, the target named by the file operand
  and the temporary file of the script. A target path that names the
  temporary file itself, that reads like an awk assignment or that is
  [-] is outside it. *)

Module Remote.
Import Shell.

Definition nl : string := String "010" "".

(** What awk brings with it: its regular expressions (a dynamic regex is
    a string that fails to compile or decides, for a record, whether it
    matches somewhere), its reading of the text of a [-v] assignment
    (escape sequences in it are processed), and a fault: the process is
    killed or meets an I/O error when it has handled that many records. *)
Record awk_env := {
  regex : string → option (string → bool);
  assign : string → string;
  dies_after : option nat
}.


(** The records of a file under the default [RS]: the text before each
    newline, and what follows the last newline if it is not empty. *)
Fixpoint records (text : string) : list string :=
  match text with
  | EmptyString => []
  | String c text' =>
      if Ascii.eqb c "010" then "" :: records text'
      else
        match records text' with
        | [] => [String c ""]
        | r :: rs => String c r :: rs
        end
  end.

(** [RSTART] after [match($0, /[^[:space:]]/)], counting from [i]. *)
Fixpoint rstart (i : nat) (line : string) : nat :=
  match line with
  | EmptyString => 0
  | String c line' => if Ascii.is_space c then rstart (S i) line' else i
  end.

(** [substr(s, 1, n)] *)
Fixpoint substr1 (s : string) (n : nat) : string :=
  match n, s with
  | S n', String c s' => String c (substr1 s' n')
  | _, _ => ""
  end.

(** [lead = (RSTART>1?substr($0,1,RSTART-1):"")] *)
Definition lead (line : string) : string :=
  let RSTART := rstart 1 line in
  if (1 <? RSTART)%nat then substr1 line (RSTART - 1) else "".

(** The main loop of the program on the records left, [handled] records
    in: the exit status and the text printed. *)
Fixpoint awk_main (env : awk_env) (pattern new_line : string) (found : bool)
    (handled : nat) (recs : list string) : nat * string :=
  match recs with
  | [] => (0%nat, "")
  | r :: recs' =>
      if decide (dies_after env = Some handled) then (2%nat, "")
      else
        let printed := r +:+ nl in
        if found then
          let '(st, out) := awk_main env pattern new_line true (S handled) recs' in
          (st, printed +:+ out)
        else
          match regex env pattern with
          | None => (2%nat, printed)
          | Some matches =>
              if matches r then
                let '(st, out) :=
                  awk_main env pattern new_line true (S handled) recs' in
                (st, printed +:+ (lead r +:+ new_line +:+ nl) +:+ out)
              else
                let '(st, out) :=
                  awk_main env pattern new_line false (S handled) recs' in
                (st, printed +:+ out)
          end
  end.

(** [awk -v pattern=.. -v new_line=.. 'program' file]: a file that cannot
    be read ends the run with status 2. *)
Definition awk_append (env : awk_env) (pattern_text new_line_text : string)
    (input : option string) : nat * string :=
  match input with
  | None => (2%nat, "")
  | Some text =>
      awk_main env (assign env pattern_text) (assign env new_line_text)
        false 0 (records text)
  end.

Record files := {
  target : option string;
  tmp : option string
}.

Fixpoint strip_prefix (p s : string) : option string :=
  match p, s with
  | EmptyString, _ => Some s
  | String a p', String b s' =>
      if Ascii.eqb a b then strip_prefix p' s' else None
  | _, _ => None
  end.

(** The one command line the model runs:
    [awk -v pattern=P -v new_line=N PROGRAM F > T && mv T F]. The
    redirection empties [T] before awk starts; [mv] runs when awk ends
    with status 0. *)
Definition run_tokens (env : awk_env) (toks : list token) (fs : files)
    : option (nat * files) :=
  match toks with
  | [TWord c1; TWord o1; TWord a1; TWord o2; TWord a2; TWord prog; TWord f;
     TOp Great; TWord t; TOp AndIf; TWord c2; TWord t'; TWord f'] =>
      if bool_decide (c1 = "awk" ∧ o1 = "-v" ∧ o2 = "-v"
                      ∧ prog = Patch.awk_program ∧ c2 = "mv"
                      ∧ t' = t ∧ f' = f)
      then
        p ← strip_prefix "pattern=" a1;
        n ← strip_prefix "new_line=" a2;
        let fs1 := {| target := target fs; tmp := Some "" |} in
        let '(st, out) := awk_append env p n (target fs1) in
        let fs2 := {| target := target fs1; tmp := Some out |} in
        if decide (st = 0%nat)
        then Some (0%nat, {| target := tmp fs2; tmp := None |})
        else Some (st, fs2)
      else None
  | _ => None
  end.

Definition remote_run (env : awk_env) (pid script : string) (fs : files)
    : option (nat * files) :=
  toks ← sh_lex pid script; run_tokens env toks fs.

(** *** The patch as the specification words it *)

Definition unlines (lines : list string) : string :=
  foldr (λ l rest, l +:+ nl +:+ rest) "" lines.






(** *** A concrete awk for the examples *)

Fixpoint is_prefix (p s : string) : bool :=
  match p, s with
  | EmptyString, _ => true
  | String a p', String b s' => Ascii.eqb a b && is_prefix p' s'
  | _, _ => false
  end.

Fixpoint contains (p s : string) : bool :=
  is_prefix p s ||
  match s with
  | EmptyString => false
  | String _ s' => contains p s'
  end.

(** awk on patterns and texts that hold neither a regular-expression
    operator nor a backslash: the pattern matches the records that
    contain it, the assignment text is the value. An unbalanced
    parenthesis stands for the patterns awk cannot compile. *)
Definition plain_awk (fault : option nat) : awk_env :=
  {| regex := λ pat, if decide (pat = "(") then None else Some (contains pat);
     assign := λ text, text;
     dies_after := fault |}.

End Remote.

(** ** Environments for the examples *)

Module Scenario.
Import Dispatcher.

(** Two clients agree on an instance when they answer alike whatever is
    asked about it. *)
Definition agree_on (iid : string) (a b : ssm_client) : Prop :=
  (∀ cmd t, send_command a iid cmd t = send_command b iid cmd t)
  ∧ (∀ cid τ, get_command_invocation a cid iid τ
              = get_command_invocation b cid iid τ).

(** The command is accepted and its invocation never becomes visible. *)
Definition never_visible : ssm_client :=
  {| send_command := λ _ _ _, inr "cmd-1";
     get_command_invocation := λ _ _ _, InvocationDoesNotExist |}.

(** The command is accepted and is over at once. *)
Definition instant_success : ssm_client :=
  {| send_command := λ _ _ _, inr "cmd-1";
     get_command_invocation := λ _ _ _, Invocation (Some "Success") "ok" "" |}.

(** Every submission is refused. *)
Definition access_denied : ssm_client :=
  {| send_command := λ _ _ _, inl "AccessDeniedException";
     get_command_invocation := λ _ _ _, OtherException |}.

(** [i-0bad] is refused; the others succeed at the second poll. *)
Definition one_bad : ssm_client :=
  {| send_command := λ iid _ _,
       if decide (iid = "i-0bad") then inl "InvalidInstanceId" else inr "cmd-1";
     get_command_invocation := λ _ iid τ,
       if τ <? 4 then Invocation (Some "InProgress") "" ""
       else Invocation (Some "Success") iid "" |}.

End Scenario.

(** ** What a trace shows *)

Module Observed.
Import Dispatcher.

(** The answers the polls of a dispatch received, in order. *)
Fixpoint answers (tr : trace) : list invocation :=
  match tr with
  | [] => []
  | Slept _ :: tr' => answers tr'
  | Polled a :: tr' => a :: answers tr'
  end.

End Observed.

(** ** Higher-level actions *)

Module Actions.
Import Dispatcher Engine Patch.

(** The local [cmd] of [action_git_pull]. *)
Definition git_pull_cmd (repo_path : string) : string :=
  "cd " +:+ shlex_quote repo_path +:+ " && git pull".

Definition action_git_pull (ssm : ssm_client) (sched : list nat)
    (instance_ids : list string) (repo_path : string) (concurrency : Z)
    : Py.outcome (list CommandResult * list string) :=
  run_parallel ssm sched instance_ids (git_pull_cmd repo_path) concurrency.

(** The local [cmd] of [action_git_checkout]. *)
Definition git_checkout_cmd (repo_path branch : string) : string :=
  "cd " +:+ shlex_quote repo_path +:+ " && git fetch && git checkout "
    +:+ shlex_quote branch.

Definition action_git_checkout (ssm : ssm_client) (sched : list nat)
    (instance_ids : list string) (repo_path branch : string) (concurrency : Z)
    : Py.outcome (list CommandResult * list string) :=
  run_parallel ssm sched instance_ids (git_checkout_cmd repo_path branch)
    concurrency.

Definition action_custom (ssm : ssm_client) (sched : list nat)
    (instance_ids : list string) (custom_cmd : string) (concurrency : Z)
    : Py.outcome (list CommandResult * list string) :=
  run_parallel ssm sched instance_ids custom_cmd concurrency.

(** The local [find_cmd] of [action_find_files]. *)
Definition find_cmd (repo_path filename_pattern : string) : string :=
  "find " +:+ shlex_quote repo_path +:+ " -maxdepth 6 -type f -name "
    +:+ shlex_quote filename_pattern +:+ " -print".

Definition action_find_files (ssm : ssm_client) (sched : list nat)
    (instance_ids : list string) (repo_path filename_pattern : string)
    (concurrency : Z) : Py.outcome (list CommandResult * list string) :=
  run_parallel ssm sched instance_ids (find_cmd repo_path filename_pattern)
    concurrency.

End Actions.

(** ** Inventory helpers and the interactive selection *)

Module Interactive.

(** One tag of an instance: [t.get("Key")] and [t.get("Value")]. *)
Record tag := {
  Key : option string;
  Value : option string
}.

(** One instance of a reservation; [InstanceId] is [None] when the key is
    missing, which makes [inst["InstanceId"]] raise. *)
Record ec2_instance := {
  InstanceId : option string;
  Tags : list tag
}.

(** A value of the dict [describe_instances_by_ids] builds. *)
Record described := {
  name : string;
  id : string
}.

(** The inner loop over the tags: the value of the first tag whose key is
    [Name]. *)
Fixpoint name_tag (tags : list tag) : option string :=
  match tags with
  | [] => None
  | t :: tags' =>
      if decide (Key t = Some "Name") then Value t else name_tag tags'
  end.

(** The two loops over the answer, flattened: [res] is filled instance by
    instance until one has no [InstanceId]; the exception is swallowed and
    what was filled stays. *)
Fixpoint fill (res : gmap string described) (insts : list ec2_instance)
    : gmap string described :=
  match insts with
  | [] => res
  | inst :: insts' =>
      match InstanceId inst with
      | None => res
      | Some iid =>
          fill (<[iid := {| name := default "" (name_tag (Tags inst));
                            id := iid |}]> res) insts'
      end
  end.

(** [ec2] is [describe_instances(InstanceIds=ids)]: the reservations, or
    [None] when the call raises. *)
Definition describe_instances_by_ids
    (ec2 : list string → option (list (list ec2_instance)))
    (ids : list string) : gmap string described :=
  match ids with
  | [] => ∅
  | _ =>
      match ec2 ids with
      | Some reservations => fill ∅ (concat reservations)
      | None => ∅
      end
  end.

(** [pages] is what the paginator yields, the instance ids of each page,
    or [None] when anything raises. *)
Definition get_ssm_instances (pages : option (list (list string)))
    : list string :=
  match pages with
  | Some ps => concat ps
  | None => []
  end.

(** The longest run of hexadecimal digits at the head of [s]. *)
Fixpoint hex_run (s : string) : string :=
  match s with
  | String c s' => if Py.is_hex c then String c (hex_run s') else ""
  | EmptyString => ""
  end.

(** [i-[0-9a-fA-F]+] matched at the head of [s]. *)
Definition match_here (s : string) : option string :=
  match s with
  | String a (String b rest) =>
      if Ascii.eqb a "i" && Ascii.eqb b "-" then
        if decide (hex_run rest = "") then None
        else Some ("i-" +:+ hex_run rest)
      else None
  | _ => None
  end.

(** [re.search(r"(i-[0-9a-fA-F]+)", s)]: group 1 of the leftmost match. *)
Fixpoint search_id (s : string) : option string :=
  match match_here s with
  | Some m => Some m
  | None =>
      match s with
      | EmptyString => None
      | String _ s' => search_id s'
      end
  end.

(** A line of the checkbox: [f"{name} ({iid})"], the name being
    [desc.get(iid, {}).get("name") or "NoName"]. *)
Definition shown_name (desc : gmap string described) (iid : string) : string :=
  match desc !! iid with
  | Some d => if decide (name d = "") then "NoName" else name d
  | None => "NoName"
  end.

Definition choice (desc : gmap string described) (iid : string) : string :=
  shown_name desc iid +:+ " (" +:+ iid +:+ ")".

(** What [interactive_select_instances] leaves: the ids, or the
    [AttributeError] of [.group] on a search that found nothing. *)
Inductive selection :=
| Ids (ids : list string)
| AttributeError.

(** The list comprehension over [selected]. *)
Fixpoint recover (selected : list string) : selection :=
  match selected with
  | [] => Ids []
  | s :: selected' =>
      match search_id s with
      | None => AttributeError
      | Some iid =>
          match recover selected' with
          | Ids ids => Ids (iid :: ids)
          | AttributeError => AttributeError
          end
      end
  end.

(** [ask] is the operator at the checkbox: the lines chosen among those
    shown, or [None] when the prompt is abandoned. *)
Definition interactive_select_instances (pages : option (list (list string)))
    (ec2 : list string → option (list (list ec2_instance)))
    (ask : list string → option (list string)) : selection :=
  let ssm_ids := get_ssm_instances pages in
  match ssm_ids with
  | [] => Ids []
  | _ =>
      let desc := describe_instances_by_ids ec2 ssm_ids in
      let choices := choice desc <$> ssm_ids in
      match ask choices with
      | None | Some [] => Ids []
      | Some selected => recover selected
      end
  end.

(** An instance id as EC2 writes it. *)
Definition well_formed (iid : string) : Prop :=
  ∃ h, iid = "i-" +:+ h ∧ h ≠ "" ∧ Py.forallb Py.is_hex h = true.

End Interactive.

(** * Properties *)

(** ** Resolver: no duplicate, first-seen order *)

Module ResolverFacts.
Import Resolver.

Lemma elem_of_dedupe seen out x :
  x ∈ dedupe seen out ↔ x ∈ out ∧ x ∉ seen.
Proof.
  revert seen. induction out as [|i out IH]; intros seen; simpl.
  - set_solver.
  - destruct (decide (i ∈ seen)) as [Hin|Hin].
    + rewrite IH. set_solver.
    + rewrite elem_of_cons, IH. destruct (decide (x = i)); set_solver.
Qed.




Lemma first_at_unique x p q out : first_at x p out → first_at x q out → p = q.
Proof.
  intros [Hp Hpm] [Hq Hqm].
  destruct (Nat.lt_trichotomy p q) as [H|[H|H]]; [|done|].
  - destruct (Hqm p H Hp).
  - destruct (Hpm q H Hq).
Qed.





(** The example of the specification: the tag [web] names [i-222]. *)
Example resolve_instances_web :
  (resolve_instances (λ _, inr [["i-222"]]) ["i-111"; "web"; "i-111"]).1
  = ["i-111"; "i-222"].
Proof. reflexivity. Qed.

End ResolverFacts.

(** ** Dispatcher: send failure, poll budget, time spent *)

Module DispatcherFacts.
Import Dispatcher Scenario.

Lemma elapsed_app tr1 tr2 : elapsed (tr1 ++ tr2) = elapsed tr1 + elapsed tr2.
Proof. induction tr1 as [|[d|a] tr1 IH]; simpl; lia. Qed.

Lemma polls_app tr1 tr2 : polls (tr1 ++ tr2) = (polls tr1 + polls tr2)%nat.
Proof. induction tr1 as [|[d|a] tr1 IH]; simpl; lia. Qed.

Lemma not_visible_app tr1 tr2 :
  not_visible (tr1 ++ tr2) = (not_visible tr1 + not_visible tr2)%nat.
Proof. induction tr1 as [|[d|[]] tr1 IH]; simpl; lia. Qed.

Lemma poll_loop_instance ssm iid cid n tr :
  instance (poll_loop ssm iid cid n tr).1 = iid.
Proof.
  revert tr. induction n as [|n IH]; intros tr; simpl; [done|].
  destruct (get_command_invocation _ _ _ _) as [st out err| |]; [|apply IH..].
  destruct (terminal st); [done|apply IH].
Qed.

Lemma send_ssm_command_instance ssm iid cmd t :
  instance (send_ssm_command ssm iid cmd t).1 = iid.
Proof.
  unfold send_ssm_command. destruct (send_command _ _ _ _); [done|].
  apply poll_loop_instance.
Qed.

Lemma terminal_Some st :
  terminal st = true →
  ∃ s, st = Some s ∧ s ∈ ["Success"; "Failed"; "TimedOut"; "Cancelled"].
Proof.
  destruct st as [s|]; simpl; [|done].
  intros H%bool_decide_eq_true. eauto.
Qed.

Lemma poll_loop_status ssm iid cid n tr :
  status (poll_loop ssm iid cid n tr).1 ∈ statuses.
Proof.
  revert tr. induction n as [|n IH]; intros tr; simpl.
  - unfold statuses. set_solver.
  - destruct (get_command_invocation _ _ _ _) as [st out err| |]; [|apply IH..].
    destruct (terminal st) eqn:Hst; [|apply IH].
    apply terminal_Some in Hst as (s & -> & Hs). simpl.
    unfold statuses. set_solver.
Qed.

Lemma send_ssm_command_status ssm iid cmd t :
  status (send_ssm_command ssm iid cmd t).1 ∈ statuses.
Proof.
  unfold send_ssm_command. destruct (send_command _ _ _ _).
  - unfold statuses. set_solver.
  - apply poll_loop_status.
Qed.

(** A [Cancelled] result repeats what a poll of that very invocation said. *)
Lemma poll_loop_cancelled ssm iid cid n tr :
  status (poll_loop ssm iid cid n tr).1 = "Cancelled" →
  ∃ τ out err,
    get_command_invocation ssm cid iid τ = Invocation (Some "Cancelled") out err.
Proof.
  revert tr. induction n as [|n IH]; intros tr; simpl; [done|].
  destruct (get_command_invocation _ _ _ _) as [st out err| |] eqn:Hinv;
    [|apply IH..].
  destruct (terminal st) eqn:Hst; [|apply IH].
  apply terminal_Some in Hst as (s & -> & _). simpl. intros ->. eauto.
Qed.

Lemma poll_loop_agree a b iid cid n tr :
  agree_on iid a b → poll_loop a iid cid n tr = poll_loop b iid cid n tr.
Proof.
  intros [_ Hpoll]. revert tr. induction n as [|n IH]; intros tr; simpl; [done|].
  rewrite Hpoll.
  destruct (get_command_invocation _ _ _ _) as [st out err| |]; [|apply IH..].
  destruct (terminal st); [done|apply IH].
Qed.

Lemma send_ssm_command_agree a b iid cmd t :
  agree_on iid a b → send_ssm_command a iid cmd t = send_ssm_command b iid cmd t.
Proof.
  intros Hab. unfold send_ssm_command. rewrite (proj1 Hab).
  destruct (send_command _ _ _ _); [done|]. by apply poll_loop_agree.
Qed.

(** The loop when no answer is ever terminal: every attempt is used, each
    costs 2 seconds and, when the invocation is not visible, 1 more. *)
Lemma poll_loop_never_terminal ssm iid cid n tr :
  (∀ τ, is_terminal (get_command_invocation ssm cid iid τ) = false) →
  ∃ tr', poll_loop ssm iid cid n tr = (timed_out iid, tr')
    ∧ polls tr' = (polls tr + n)%nat
    ∧ (not_visible tr ≤ not_visible tr' ≤ not_visible tr + n)%nat
    ∧ elapsed tr' - Z.of_nat (not_visible tr')
      = elapsed tr - Z.of_nat (not_visible tr) + 2 * Z.of_nat n.
Proof.
  intros Hnever. revert tr. induction n as [|n IH]; intros tr; simpl.
  - exists tr. split_and!; [done|lia..].
  - specialize (Hnever (elapsed (tr ++ [Slept 2]))).
    destruct (get_command_invocation _ _ _ _) as [st out err| |]; simpl in Hnever.
    + rewrite Hnever.
      destruct (IH ((tr ++ [Slept 2]) ++ [Polled (Invocation st out err)]))
        as (tr' & -> & Hp & Hv & He).
      exists tr'. split; [done|].
      rewrite !polls_app, !not_visible_app, !elapsed_app in *. simpl in *. lia.
    + destruct (IH (((tr ++ [Slept 2]) ++ [Polled InvocationDoesNotExist])
                      ++ [Slept 1])) as (tr' & -> & Hp & Hv & He).
      exists tr'. split; [done|].
      rewrite !polls_app, !not_visible_app, !elapsed_app in *. simpl in *. lia.
    + destruct (IH ((tr ++ [Slept 2]) ++ [Polled OtherException]))
        as (tr' & -> & Hp & Hv & He).
      exists tr'. split; [done|].
      rewrite !polls_app, !not_visible_app, !elapsed_app in *. simpl in *. lia.
Qed.

Lemma poll_budget_bound t : 2 * Z.of_nat (poll_budget t) ≤ Z.max 0 t.
Proof.
  unfold poll_budget. destruct (Z.le_gt_cases 0 t) as [H|H].
  - rewrite Z2Nat.id by (apply Z.quot_pos; lia).
    pose proof (Z.mul_quot_le t 2 H ltac:(lia)). lia.
  - pose proof (Z.quot_le_mono t 0 2 ltac:(lia) ltac:(lia)) as Hq.
    rewrite Z.quot_0_l in Hq by lia. lia.
Qed.

(** C7: when the submission itself raises, the result is [FailedToSend]
    with the text of the error and empty outputs, and the dispatch has
    neither slept nor polled. *)
Theorem send_failure_short_circuits (ssm : ssm_client)
    (instance_id command : string) (timeout_seconds : Z) (e : string) :
  send_command ssm instance_id command timeout_seconds = inl e →
  send_ssm_command ssm instance_id command timeout_seconds
  = ({| instance := instance_id; status := "FailedToSend"; error := Some e;
        stdout := ""; stderr := "" |}, [])
  ∧ polls (send_ssm_command ssm instance_id command timeout_seconds).2 = 0%nat
  ∧ elapsed (send_ssm_command ssm instance_id command timeout_seconds).2 = 0.
Proof.
  intros Hsend.
  assert (send_ssm_command ssm instance_id command timeout_seconds
          = ({| instance := instance_id; status := "FailedToSend";
                error := Some e; stdout := ""; stderr := "" |}, [])) as ->.
  { unfold send_ssm_command. by rewrite Hsend. }
  done.
Qed.

Lemma send_failure_short_circuits_witness :
  send_ssm_command access_denied "i-0a" "uptime" 300
  = ({| instance := "i-0a"; status := "FailedToSend";
        error := Some "AccessDeniedException"; stdout := ""; stderr := "" |}, [])
  ∧ polls (send_ssm_command access_denied "i-0a" "uptime" 300).2 = 0%nat
  ∧ elapsed (send_ssm_command access_denied "i-0a" "uptime" 300).2 = 0.
Proof.
  apply (send_failure_short_circuits access_denied "i-0a" "uptime" 300
           "AccessDeniedException").
  reflexivity.
Defined.



(** With two seconds the same command is seen to succeed. *)
Example two_seconds_poll_once :
  (send_ssm_command instant_success "i-0a" "uptime" 2).1
  = {| instance := "i-0a"; status := "Success"; error := None;
       stdout := "ok"; stderr := "" |}.
Proof. reflexivity. Qed.

(** C4, as the code has it: when the command is accepted and no poll ever
    sees a terminal status, the dispatch polls [int(timeout/2)] times and
    returns [TimedOut] with empty outputs; it sleeps 2 seconds before each
    poll and 1 more after each poll that finds the invocation not yet
    visible. The time slept stays within the timeout when every poll saw
    the invocation, and within the timeout plus one second per poll that
    did not. *)
Theorem send_ssm_command_timeout (ssm : ssm_client)
    (instance_id command : string) (timeout_seconds : Z) (cmd_id : string) :
  send_command ssm instance_id command timeout_seconds = inr cmd_id →
  (∀ τ, is_terminal (get_command_invocation ssm cmd_id instance_id τ) = false) →
  ∃ tr,
    send_ssm_command ssm instance_id command timeout_seconds
    = (timed_out instance_id, tr)
    ∧ polls tr = poll_budget timeout_seconds
    ∧ (not_visible tr ≤ polls tr)%nat
    ∧ elapsed tr = 2 * Z.of_nat (polls tr) + Z.of_nat (not_visible tr)
    ∧ elapsed tr ≤ Z.max 0 timeout_seconds + Z.of_nat (not_visible tr)
    ∧ (not_visible tr = 0%nat → elapsed tr ≤ Z.max 0 timeout_seconds).
Proof.
  intros Hsend Hnever. unfold send_ssm_command. rewrite Hsend.
  destruct (poll_loop_never_terminal ssm instance_id cmd_id
              (poll_budget timeout_seconds) [] Hnever)
    as (tr & -> & Hp & Hv & He).
  exists tr. simpl in *.
  pose proof (poll_budget_bound timeout_seconds).
  split_and!; [done|lia..].
Qed.

Lemma never_visible_never_terminal cid iid τ :
  is_terminal (get_command_invocation never_visible cid iid τ) = false.
Proof. reflexivity. Qed.

Lemma send_ssm_command_timeout_witness :
  ∃ tr,
    send_ssm_command never_visible "i-0a" "uptime" 7 = (timed_out "i-0a", tr)
    ∧ polls tr = poll_budget 7
    ∧ (not_visible tr ≤ polls tr)%nat
    ∧ elapsed tr = 2 * Z.of_nat (polls tr) + Z.of_nat (not_visible tr)
    ∧ elapsed tr ≤ Z.max 0 7 + Z.of_nat (not_visible tr)
    ∧ (not_visible tr = 0%nat → elapsed tr ≤ Z.max 0 7).
Proof.
  apply (send_ssm_command_timeout never_visible "i-0a" "uptime" 7 "cmd-1").
  - reflexivity.
  - intros τ. apply never_visible_never_terminal.
Defined.

(** C4 as stated fails: with the default timeout of 300 seconds and an
    invocation that never becomes visible, the dispatch polls 150 times and
    sleeps 450 seconds, more than the timeout and one poll interval. *)
Lemma send_ssm_command_timeout_overrun :
  status (send_ssm_command never_visible "i-0a" "uptime" 300).1 = "TimedOut"
  ∧ polls (send_ssm_command never_visible "i-0a" "uptime" 300).2 = 150%nat
  ∧ elapsed (send_ssm_command never_visible "i-0a" "uptime" 300).2 = 450
  ∧ ¬ (elapsed (send_ssm_command never_visible "i-0a" "uptime" 300).2
       ≤ 300 + 2).
Proof.
  assert (elapsed (send_ssm_command never_visible "i-0a" "uptime" 300).2 = 450)
    as He by (vm_compute; reflexivity).
  split_and!; [vm_compute; reflexivity ..| done |].
  rewrite He. lia.
Qed.

End DispatcherFacts.

(** ** Engine: one result per instance, each its own *)

Module EngineFacts.
Import Dispatcher Engine Scenario DispatcherFacts.

Lemma as_completed_Permutation {A} (sched : list nat) (futures : list A) :
  as_completed sched futures ≡ₚ futures.
Proof.
  revert futures. induction sched as [|k sched IH]; intros futures; simpl; [done|].
  destruct futures as [|f0 futures']; [done|].
  set (l := f0 :: futures'). set (i := (k `mod` length l)%nat).
  assert (i < length l)%nat as Hi by (apply Nat.mod_upper_bound; done).
  destruct (lookup_lt_is_Some_2 l i Hi) as [x Hx].
  rewrite (nth_lookup_Some _ _ _ _ Hx), IH.
  symmetry. by apply delete_Permutation.
Qed.

Lemma instance_dispatched ssm ids command :
  instance <$> dispatched ssm ids command = ids.
Proof.
  unfold dispatched. induction ids as [|iid ids IH]; simpl; [done|].
  rewrite send_ssm_command_instance. by f_equal.
Qed.

Lemma run_parallel_returns ssm sched ids command concurrency :
  0 < concurrency →
  run_parallel ssm sched ids command concurrency
  = Py.Returned (as_completed sched (dispatched ssm ids command),
                 concat (log_result
                           <$> as_completed sched (dispatched ssm ids command))).
Proof.
  intros Hc. unfold run_parallel.
  destruct (concurrency <=? 0) eqn:Hle; [lia|done].
Qed.

Lemma elem_of_dispatched ssm ids command r :
  r ∈ dispatched ssm ids command ↔
  instance r ∈ ids ∧ r = (send_ssm_command ssm (instance r) command default_timeout).1.
Proof.
  unfold dispatched. rewrite list_elem_of_fmap. split.
  - intros (iid & -> & Hin). rewrite send_ssm_command_instance. done.
  - intros [Hin Hr]. eauto.
Qed.

(** C1, as the code has it: with at least one worker the engine returns,
    for N identifiers, N results whose instance fields are the input
    identifiers in some order, hence pairwise distinct when the input has
    no duplicate, whatever the completion order and however each dispatch
    ended. *)
Theorem run_parallel_cardinality (ssm : ssm_client) (sched : list nat)
    (instance_ids : list string) (command : string) (concurrency : Z) :
  0 < concurrency →
  ∃ results logs,
    run_parallel ssm sched instance_ids command concurrency
    = Py.Returned (results, logs)
    ∧ length results = length instance_ids
    ∧ instance <$> results ≡ₚ instance_ids
    ∧ (NoDup instance_ids → NoDup (instance <$> results)).
Proof.
  intros Hc. eexists _, _. split; [by apply run_parallel_returns|].
  assert (instance <$> as_completed sched (dispatched ssm instance_ids command)
          ≡ₚ instance_ids) as Hperm.
  { rewrite as_completed_Permutation. by rewrite instance_dispatched. }
  split_and!.
  - rewrite <- (length_fmap instance). by rewrite Hperm.
  - done.
  - intros Hnd. by rewrite Hperm.
Qed.

Lemma run_parallel_cardinality_witness :
  ∃ results logs,
    run_parallel one_bad [2; 0]%nat ["i-01"; "i-0bad"; "i-02"] "uptime" 8
    = Py.Returned (results, logs)
    ∧ length results = length ["i-01"; "i-0bad"; "i-02"]
    ∧ instance <$> results ≡ₚ ["i-01"; "i-0bad"; "i-02"]
    ∧ (NoDup ["i-01"; "i-0bad"; "i-02"] → NoDup (instance <$> results)).
Proof.
  apply (run_parallel_cardinality one_bad [2; 0]%nat
           ["i-01"; "i-0bad"; "i-02"] "uptime" 8).
  lia.
Defined.

(** C1 as stated fails for a concurrency of 0: the pool refuses to start
    and the engine returns no result at all. *)
Lemma run_parallel_no_worker :
  run_parallel one_bad [] ["i-01"] "uptime" 0
  = Py.Raised (Py.ValueError "max_workers must be greater than 0")
  ∧ ¬ (∃ results logs,
         run_parallel one_bad [] ["i-01"] "uptime" 0 = Py.Returned (results, logs)
         ∧ length results = 1%nat).
Proof.
  split; [reflexivity|]. intros (results & logs & Heq & _). discriminate Heq.
Qed.

(** C6: once the pool has its workers, the engine returns a result for
    every launched dispatch; each result is what the dispatch of its own
    instance gives on its own, with one of the five statuses; it is the
    same under any other behaviour of the channel toward the other
    instances and any other completion order; and it is [Cancelled] only
    if a poll of its own invocation said so. *)
Theorem run_parallel_isolation (ssm : ssm_client) (sched : list nat)
    (instance_ids : list string) (command : string) (concurrency : Z) :
  0 < concurrency →
  ∃ results logs,
    run_parallel ssm sched instance_ids command concurrency
    = Py.Returned (results, logs)
    ∧ (∀ iid, iid ∈ instance_ids → ∃ r, r ∈ results ∧ instance r = iid)
    ∧ (∀ r, r ∈ results →
         instance r ∈ instance_ids
         ∧ r = (send_ssm_command ssm (instance r) command default_timeout).1
         ∧ status r ∈ statuses)
    ∧ (∀ r ssm' sched', r ∈ results → agree_on (instance r) ssm ssm' →
         ∃ results' logs',
           run_parallel ssm' sched' instance_ids command concurrency
           = Py.Returned (results', logs')
           ∧ r ∈ results')
    ∧ (∀ r, r ∈ results → status r = "Cancelled" →
         ∃ cmd_id τ out err,
           send_command ssm (instance r) command default_timeout = inr cmd_id
           ∧ get_command_invocation ssm cmd_id (instance r) τ
             = Invocation (Some "Cancelled") out err).
Proof.
  intros Hc. eexists _, _. split; [by apply run_parallel_returns|].
  split_and!.
  - intros iid Hin. exists (send_ssm_command ssm iid command default_timeout).1.
    rewrite as_completed_Permutation, elem_of_dispatched.
    rewrite send_ssm_command_instance. done.
  - intros r. rewrite as_completed_Permutation, elem_of_dispatched.
    intros [Hin Hr]. split_and!; [done..|].
    rewrite Hr. apply send_ssm_command_status.
  - intros r ssm' sched'. rewrite as_completed_Permutation, elem_of_dispatched.
    intros [Hin Hr] Hagree. eexists _, _.
    split; [by apply run_parallel_returns|].
    rewrite as_completed_Permutation, elem_of_dispatched.
    split; [done|]. rewrite Hr at 1. f_equal. by apply send_ssm_command_agree.
  - intros r. rewrite as_completed_Permutation, elem_of_dispatched.
    intros [Hin Hr] Hst. rewrite Hr in Hst. clear Hr.
    unfold send_ssm_command in Hst.
    destruct (send_command ssm (instance r) command default_timeout)
      as [e|cmd_id] eqn:Hsend; [done|].
    apply poll_loop_cancelled in Hst as (τ & out & err & Hpoll). eauto 10.
Qed.

Lemma run_parallel_isolation_witness :
  ∃ results logs,
    run_parallel one_bad [1; 3]%nat ["i-01"; "i-0bad"; "i-02"] "uptime" 2
    = Py.Returned (results, logs)
    ∧ (∀ iid, iid ∈ ["i-01"; "i-0bad"; "i-02"] →
         ∃ r, r ∈ results ∧ instance r = iid)
    ∧ (∀ r, r ∈ results →
         instance r ∈ ["i-01"; "i-0bad"; "i-02"]
         ∧ r = (send_ssm_command one_bad (instance r) "uptime" default_timeout).1
         ∧ status r ∈ statuses)
    ∧ (∀ r ssm' sched', r ∈ results → agree_on (instance r) one_bad ssm' →
         ∃ results' logs',
           run_parallel ssm' sched' ["i-01"; "i-0bad"; "i-02"] "uptime" 2
           = Py.Returned (results', logs')
           ∧ r ∈ results')
    ∧ (∀ r, r ∈ results → status r = "Cancelled" →
         ∃ cmd_id τ out err,
           send_command one_bad (instance r) "uptime" default_timeout = inr cmd_id
           ∧ get_command_invocation one_bad cmd_id (instance r) τ
             = Invocation (Some "Cancelled") out err).
Proof.
  apply (run_parallel_isolation one_bad [1; 3]%nat
           ["i-01"; "i-0bad"; "i-02"] "uptime" 2).
  lia.
Defined.

(** The example of the specification: five instances, the send to one of
    them refused; the four others succeed, in the order in which they
    finish. *)
Example one_send_fails_of_five :
  ∃ logs,
    run_parallel one_bad [4; 0; 2]%nat
      ["i-01"; "i-02"; "i-0bad"; "i-03"; "i-04"] "uptime" 2
    = Py.Returned
        ([ {| instance := "i-04"; status := "Success"; error := None;
              stdout := "i-04"; stderr := "" |};
           {| instance := "i-01"; status := "Success"; error := None;
              stdout := "i-01"; stderr := "" |};
           {| instance := "i-03"; status := "Success"; error := None;
              stdout := "i-03"; stderr := "" |};
           {| instance := "i-02"; status := "Success"; error := None;
              stdout := "i-02"; stderr := "" |};
           {| instance := "i-0bad"; status := "FailedToSend";
              error := Some "InvalidInstanceId"; stdout := ""; stderr := "" |} ],
         logs).
Proof. eexists. vm_compute. reflexivity. Qed.

End EngineFacts.

(** ** Patch generator: the words the remote shell reads *)

Module PatchFacts.
Import Patch Shell.

Lemma app_cons a s t : String a s +:+ t = String a (s +:+ t).
Proof. reflexivity. Qed.

Lemma app_nil_l s : "" +:+ s = s.
Proof. reflexivity. Qed.

Lemma app_nil_r s : s +:+ "" = s.
Proof. induction s as [|a s IH]; [done|]. by rewrite app_cons, IH. Qed.

Lemma app_assoc s t u : (s +:+ t) +:+ u = s +:+ t +:+ u.
Proof. induction s as [|a s IH]; [done|]. by rewrite !app_cons, IH. Qed.

Lemma quote_escape_app rest :
  quote_escape +:+ rest
  = String "'" (String "034" (String "'" (String "034" (String "'" rest)))).
Proof. reflexivity. Qed.

(** Run the lexer over the characters already known. *)
Ltac lex_known :=
  rewrite ?app_cons, ?app_nil_l; cbn;
  unfold open_word, push, push_all; cbn.

(** The same with the text that is not known yet set aside meanwhile. *)
Ltac lex_steps :=
  lazymatch goal with
  | |- context [lex _ _ _ ?s] =>
      lazymatch s with
      | context [Py.replace ?c ?by_ ?t +:+ ?rest] =>
          let tail := fresh "tail" in
          let Htail := fresh "Htail" in
          remember (Py.replace c by_ t +:+ rest) as tail eqn:Htail;
          lex_known; subst tail; rewrite ?app_cons, ?app_nil_l
      | context [shlex_quote ?t +:+ ?rest] =>
          let tail := fresh "tail" in
          let Htail := fresh "Htail" in
          remember (shlex_quote t +:+ rest) as tail eqn:Htail;
          lex_known; subst tail; rewrite ?app_cons, ?app_nil_l
      | context [shlex_quote ?t] =>
          let tail := fresh "tail" in
          let Htail := fresh "Htail" in
          remember (shlex_quote t) as tail eqn:Htail;
          lex_known; subst tail; rewrite ?app_cons, ?app_nil_l
      | _ => lex_known
      end
  end.

(** Inside single quotes the escaped text reads back as the text itself,
    and the quote that follows it closes the quoting. *)
Lemma lex_single_escaped pid s w rest :
  lex pid Single (Some w) (Py.replace "'" quote_escape s +:+ String "'" rest)
  = lex pid Unquoted (Some (w +:+ s)) rest.
Proof.
  revert w. induction s as [|a s IH]; intros w.
  - simpl. by rewrite app_nil_r.
  - simpl Py.replace. destruct (Ascii.eqb a "'") eqn:Ha.
    + apply Ascii.eqb_eq in Ha as ->.
      rewrite app_assoc, quote_escape_app. lex_steps.
      rewrite IH. by rewrite app_assoc.
    + rewrite app_cons. simpl. rewrite Ha. lex_steps.
      rewrite IH. by rewrite app_assoc.
Qed.

Lemma lex_single_plain pid s w rest :
  Py.replace "'" quote_escape s = s →
  lex pid Single (Some w) (s +:+ String "'" rest)
  = lex pid Unquoted (Some (w +:+ s)) rest.
Proof. intros Hs. rewrite <- Hs at 1. apply lex_single_escaped. Qed.

Lemma shlex_safe_plain c : shlex_safe c = true → classify c = COther.
Proof. destruct c as [[] [] [] [] [] [] [] []]; simpl; done. Qed.

Lemma forallb_cons p c s :
  Py.forallb p (String c s) = true → p c = true ∧ Py.forallb p s = true.
Proof. intros H. by apply andb_true_iff in H. Qed.

Lemma lex_plain_char pid cur c s :
  classify c = COther →
  lex pid Unquoted cur (String c s) = lex pid Unquoted (push cur c) s.
Proof. intros Hc. simpl. by rewrite Hc. Qed.

Lemma lex_safe_word pid s cur c rest :
  Py.forallb shlex_safe (String c s) = true →
  lex pid Unquoted cur (String c s +:+ rest)
  = lex pid Unquoted (Some (default "" cur +:+ String c s)) rest.
Proof.
  revert cur c. induction s as [|b s IH]; intros cur c Hsafe;
    apply forallb_cons in Hsafe as [Hc Hs];
    rewrite app_cons, (lex_plain_char _ _ _ _ (shlex_safe_plain c Hc)).
  - done.
  - rewrite (IH _ _ Hs). unfold push. simpl. by rewrite app_assoc.
Qed.

(** What [shlex.quote] writes is read by the shell as one word, the text
    quoted. *)
Lemma lex_shlex_quote pid f rest :
  lex pid Unquoted None (shlex_quote f +:+ rest) = lex pid Unquoted (Some f) rest.
Proof.
  unfold shlex_quote. destruct (decide (f = "")) as [->|Hne].
  - reflexivity.
  - destruct (Py.forallb shlex_safe f) eqn:Hsafe.
    + destruct f as [|c f]; [done|]. by rewrite lex_safe_word.
    + rewrite !app_assoc. lex_steps. by rewrite lex_single_escaped.
Qed.

Lemma lex_tmp_redirect pid f cur :
  lex pid Unquoted cur (tmp_redirect +:+ shlex_quote f)
  = Some (emit cur [TOp Great; TWord (tmp_path pid); TOp AndIf; TWord "mv";
                    TWord (tmp_path pid); TWord f]).
Proof.
  unfold tmp_redirect. lex_steps.
  rewrite <- (app_nil_r (shlex_quote f)), lex_shlex_quote. lex_steps.
  reflexivity.
Qed.

Lemma lex_awk_script pid filepath match_pattern new_line :
  sh_lex pid (awk_script filepath match_pattern new_line)
  = Some [TWord "awk"; TWord "-v"; TWord ("pattern=" +:+ match_pattern);
          TWord "-v"; TWord ("new_line=" +:+ new_line);
          TWord awk_program; TWord filepath;
          TOp Great; TWord (tmp_path pid);
          TOp AndIf; TWord "mv"; TWord (tmp_path pid); TWord filepath].
Proof.
  unfold sh_lex, awk_script. lex_steps.
  rewrite lex_single_escaped. lex_steps.
  rewrite lex_single_escaped. rewrite !app_assoc. lex_steps.
  rewrite (lex_single_plain _ awk_program) by (vm_compute; reflexivity).
  lex_steps.
  rewrite lex_shlex_quote, lex_tmp_redirect. reflexivity.
Qed.

(** A pattern and a line that try to leave their quotes. *)
Example awk_script_hostile :
  sh_lex "4242" (awk_script "/opt/a b.py" "x' ; rm -rf / ; '" "$(id)`id`")
  = Some [TWord "awk"; TWord "-v"; TWord "pattern=x' ; rm -rf / ; '";
          TWord "-v"; TWord "new_line=$(id)`id`";
          TWord awk_program; TWord "/opt/a b.py";
          TOp Great; TWord "/tmp/tm_cli_tmp.4242";
          TOp AndIf; TWord "mv"; TWord "/tmp/tm_cli_tmp.4242";
          TWord "/opt/a b.py"].
Proof. vm_compute. reflexivity. Qed.

(** Without the replacement of the quotes the same pattern would add
    words and operators of its own. *)
Example unescaped_pattern_breaks_out :
  sh_lex "4242" ("awk -v pattern='" +:+ "x' ; rm -rf / ; '" +:+ "' f")
  = Some [TWord "awk"; TWord "-v"; TWord "pattern=x"; TOp Semi;
          TWord "rm"; TWord "-rf"; TWord "/"; TOp Semi; TWord ""; TWord "f"].
Proof. vm_compute. reflexivity. Qed.

End PatchFacts.

(** ** Remote run: one insertion, same lines, replacement after the pass *)

Module RemoteFacts.
Import Patch Shell Remote PatchFacts.

Lemma strip_prefix_app p s : strip_prefix p (p +:+ s) = Some s.
Proof.
  induction p as [|a p IH]; [done|].
  rewrite app_cons. cbn [strip_prefix]. by rewrite Ascii.eqb_refl.
Qed.

(** The generated command on the remote host: awk writes the temporary
    file, and the target changes only when awk ends with status 0. *)
Lemma remote_run_awk_script env pid f p n fs :
  remote_run env pid (awk_script f p n) fs
  = Some (if decide ((awk_append env p n (target fs)).1 = 0%nat)
          then (0%nat, {| target := Some (awk_append env p n (target fs)).2;
                          tmp := None |})
          else ((awk_append env p n (target fs)).1,
                {| target := target fs;
                   tmp := Some (awk_append env p n (target fs)).2 |})).
Proof.
  unfold remote_run. rewrite lex_awk_script.
  cbn [mbind option_bind]. unfold run_tokens.
  rewrite bool_decide_eq_true_2 by (repeat split; reflexivity).
  rewrite !strip_prefix_app. cbn [mbind option_bind target tmp].
  destruct (awk_append env p n (target fs)) as [st out]. cbn [fst snd].
  by destruct (decide (st = 0%nat)).
Qed.

















(** The examples of the specification: the indentation of the matched
    line is copied, and only the first of two matching lines gets the new
    line. *)
Example indentation_preserved :
  remote_run (plain_awk None) "4242" (awk_script "/opt/app/run.py" "def run" "pass")
    {| target := Some (unlines ["x = 1"; "    def run():"; "  def run():"]);
       tmp := None |}
  = Some (0%nat,
          {| target := Some (unlines ["x = 1"; "    def run():"; "    pass";
                                      "  def run():"]);
             tmp := None |}).
Proof. vm_compute. reflexivity. Qed.






(** The process dies after the first of two records: the target is
    untouched and the temporary file holds the first record. *)
Example killed_midway :
  remote_run (plain_awk (Some 1%nat)) "4242"
    (awk_script "/opt/app/run.py" "def run" "pass")
    {| target := Some (unlines ["def run():"; "x = 1"]); tmp := None |}
  = Some (2%nat,
          {| target := Some (unlines ["def run():"; "x = 1"]);
             tmp := Some (unlines ["def run():"; "pass"]) |}).
Proof. vm_compute. reflexivity. Qed.

(** The pattern does not compile. *)
Example pattern_rejected :
  remote_run (plain_awk None) "4242" (awk_script "/opt/app/run.py" "(" "pass")
    {| target := Some (unlines ["def run():"; "x = 1"]); tmp := None |}
  = Some (2%nat,
          {| target := Some (unlines ["def run():"; "x = 1"]);
             tmp := Some (unlines ["def run():"]) |}).
Proof. vm_compute. reflexivity. Qed.

(** The file is missing. *)
Example target_missing :
  remote_run (plain_awk None) "4242" (awk_script "/opt/app/run.py" "def run" "pass")
    {| target := None; tmp := None |}
  = Some (2%nat, {| target := None; tmp := Some "" |}).
Proof. vm_compute. reflexivity. Qed.

(** A second run inserts again, after the same first match. *)
Example second_run_inserts_again :
  remote_run (plain_awk None) "4242" (awk_script "/opt/app/run.py" "def run" "pass")
    {| target := Some (unlines ["  def run():"; "  pass"; "def run():"]);
       tmp := None |}
  = Some (0%nat,
          {| target := Some (unlines ["  def run():"; "  pass"; "  pass";
                                      "def run():"]);
             tmp := None |}).
Proof. vm_compute. reflexivity. Qed.

(** C3: whatever the pattern, the inserted line and the path, the shell
    reads the generated command as the same thirteen tokens: awk with its
    two assignments, each one word holding the text as given, the program
    and the file, the redirection to the temporary file, and the move.
    No text ends its quoting (the escaped text is read back whole and the
    quoting ends at the quote written after it), adds a word or an
    operator, or reaches a substitution; what the remote host runs is
    that awk and that mv. *)
Theorem awk_script_structure (pid filepath match_pattern new_line : string) :
  sh_lex pid (awk_script filepath match_pattern new_line)
  = Some [TWord "awk"; TWord "-v"; TWord ("pattern=" +:+ match_pattern);
          TWord "-v"; TWord ("new_line=" +:+ new_line);
          TWord awk_program; TWord filepath;
          TOp Great; TWord (tmp_path pid);
          TOp AndIf; TWord "mv"; TWord (tmp_path pid); TWord filepath]
  ∧ (∀ text word rest,
       lex pid Single (Some word)
         (Py.replace "'" quote_escape text +:+ String "'" rest)
       = lex pid Unquoted (Some (word +:+ text)) rest)
  ∧ (∀ env fs,
       is_Some (remote_run env pid
                  (awk_script filepath match_pattern new_line) fs)).
Proof.
  split_and!.
  - apply lex_awk_script.
  - intros text word rest. apply lex_single_escaped.
  - intros env fs. rewrite remote_run_awk_script. eauto.
Qed.

End RemoteFacts.

(** ** Resolver: what each kind of token contributes *)

Module ResolverMore.
Import Resolver ResolverFacts.

(** What one token adds, whatever was gathered before it. *)
Lemma resolve_item_acc ec2 out logs t :
  resolve_item ec2 (out, logs) t
  = (out ++ (resolve_item ec2 ([], []) t).1,
     logs ++ (resolve_item ec2 ([], []) t).2).
Proof.
  unfold resolve_item.
  destruct (decide (Py.strip t = "")); simpl; [by rewrite !app_nil_r|].
  destruct (is_instance_id (Py.strip t)); simpl; [by rewrite app_nil_r|].
  destruct (ec2 (Py.strip t)) as [e|rs]; simpl; [by rewrite app_nil_r|].
  destruct (concat rs); simpl; by rewrite app_nil_r.
Qed.

Lemma foldl_resolve_item ec2 out logs l :
  foldl (resolve_item ec2) (out, logs) l
  = (out ++ (gather ec2 l).1, logs ++ (gather ec2 l).2).
Proof.
  unfold gather. revert out logs.
  induction l as [|t l IH]; intros out logs; cbn [foldl];
    [by rewrite !app_nil_r|].
  rewrite (resolve_item_acc ec2 out logs t).
  destruct (resolve_item ec2 ([], []) t) as [o g]. cbn [fst snd].
  rewrite (IH (out ++ o) (logs ++ g)), (IH o g). cbn [fst snd].
  by rewrite !app_assoc.
Qed.

Lemma gather_cons ec2 t l :
  gather ec2 (t :: l)
  = ((resolve_item ec2 ([], []) t).1 ++ (gather ec2 l).1,
     (resolve_item ec2 ([], []) t).2 ++ (gather ec2 l).2).
Proof.
  unfold gather at 1. cbn [foldl].
  destruct (resolve_item ec2 ([], []) t) as [o g].
  by rewrite foldl_resolve_item.
Qed.

Lemma gather_app ec2 l1 l2 :
  gather ec2 (l1 ++ l2)
  = ((gather ec2 l1).1 ++ (gather ec2 l2).1,
     (gather ec2 l1).2 ++ (gather ec2 l2).2).
Proof.
  induction l1 as [|t l1 IH]; simpl.
  - by destruct (gather ec2 l2).
  - rewrite !gather_cons, IH. simpl. by rewrite !app_assoc.
Qed.

Lemma resolve_instances_eq ec2 raw :
  resolve_instances ec2 raw = (dedupe ∅ (gather ec2 raw).1, (gather ec2 raw).2).
Proof. unfold resolve_instances. by destruct (gather ec2 raw). Qed.

Lemma gather_ids ec2 raw :
  Forall (λ t, is_instance_id (Py.strip t) = true) raw →
  gather ec2 raw = (Py.strip <$> raw, []).
Proof.
  induction 1 as [|t raw Ht _ IH]; [done|].
  rewrite gather_cons, IH. unfold resolve_item.
  destruct (decide (Py.strip t = "")) as [Hempty|_].
  - rewrite Hempty in Ht. done.
  - by rewrite Ht.
Qed.

(** X1: tokens that all read as instance ids are taken as they are: the
    result is the stripped tokens without their repetitions, whatever the
    inventory would answer, and nothing is logged. *)
Theorem explicit_ids_verbatim (ec2 : inventory) (raw_list : list string) :
  Forall (λ t, is_instance_id (Py.strip t) = true) raw_list →
  resolve_instances ec2 raw_list = (dedupe ∅ (Py.strip <$> raw_list), []).
Proof. intros Hids. by rewrite resolve_instances_eq, (gather_ids _ _ Hids). Qed.

Lemma explicit_ids_verbatim_witness :
  resolve_instances (λ _, inl "unreachable") [" i-0a1 "; "i-0B2"; "i-0a1"]
  = (dedupe ∅ (Py.strip <$> [" i-0a1 "; "i-0B2"; "i-0a1"]), []).
Proof.
  apply (explicit_ids_verbatim (λ _, inl "unreachable")
           [" i-0a1 "; "i-0B2"; "i-0a1"]).
  repeat constructor.
Defined.

(** X2: a name whose lookup raises costs one warning and nothing else:
    the identifiers resolved are those of the other tokens, and the log is
    theirs with the warning in between. *)
Theorem failed_lookup_is_local (ec2 : inventory) (before after : list string)
    (token e : string) :
  Py.strip token ≠ "" →
  is_instance_id (Py.strip token) = false →
  ec2 (Py.strip token) = inl e →
  (resolve_instances ec2 (before ++ token :: after)).1
  = (resolve_instances ec2 (before ++ after)).1
  ∧ (resolve_instances ec2 (before ++ token :: after)).2
    = (gather ec2 before).2
      ++ ["[WARN] Error resolving '" +:+ Py.strip token +:+ "': " +:+ e]
      ++ (gather ec2 after).2.
Proof.
  intros Hne Hid Hec2.
  rewrite !resolve_instances_eq, !gather_app, gather_cons. simpl.
  unfold resolve_item. destruct (decide (Py.strip token = "")); [done|].
  rewrite Hid, Hec2. done.
Qed.

Lemma failed_lookup_is_local_witness :
  (resolve_instances (λ item, if decide (item = "db") then inl "timeout"
                              else inr [["i-0c3"]])
     (["i-0a1"] ++ "db" :: ["web"])).1
  = (resolve_instances (λ item, if decide (item = "db") then inl "timeout"
                                else inr [["i-0c3"]])
       (["i-0a1"] ++ ["web"])).1
  ∧ (resolve_instances (λ item, if decide (item = "db") then inl "timeout"
                                else inr [["i-0c3"]])
       (["i-0a1"] ++ "db" :: ["web"])).2
    = (gather (λ item, if decide (item = "db") then inl "timeout"
                       else inr [["i-0c3"]]) ["i-0a1"]).2
      ++ ["[WARN] Error resolving '" +:+ Py.strip "db" +:+ "': " +:+ "timeout"]
      ++ (gather (λ item, if decide (item = "db") then inl "timeout"
                          else inr [["i-0c3"]]) ["web"]).2.
Proof.
  apply (failed_lookup_is_local
           (λ item, if decide (item = "db") then inl "timeout" else inr [["i-0c3"]])
           ["i-0a1"] ["web"] "db" "timeout").
  - done.
  - reflexivity.
  - reflexivity.
Defined.

(** X3: a name that no running instance carries costs one warning and
    nothing else. *)
Theorem unknown_name_is_local (ec2 : inventory) (before after : list string)
    (token : string) (reservations : list (list string)) :
  Py.strip token ≠ "" →
  is_instance_id (Py.strip token) = false →
  ec2 (Py.strip token) = inr reservations →
  concat reservations = [] →
  (resolve_instances ec2 (before ++ token :: after)).1
  = (resolve_instances ec2 (before ++ after)).1
  ∧ (resolve_instances ec2 (before ++ token :: after)).2
    = (gather ec2 before).2
      ++ ["[WARN] No running instance found with Name tag '"
            +:+ Py.strip token +:+ "'"]
      ++ (gather ec2 after).2.
Proof.
  intros Hne Hid Hec2 Hnone.
  rewrite !resolve_instances_eq, !gather_app, gather_cons. simpl.
  unfold resolve_item. destruct (decide (Py.strip token = "")); [done|].
  rewrite Hid, Hec2, Hnone. done.
Qed.

Lemma unknown_name_is_local_witness :
  (resolve_instances (λ _, inr [[]; []]) (["i-0a1"] ++ "ghost" :: ["i-0b2"])).1
  = (resolve_instances (λ _, inr [[]; []]) (["i-0a1"] ++ ["i-0b2"])).1
  ∧ (resolve_instances (λ _, inr [[]; []]) (["i-0a1"] ++ "ghost" :: ["i-0b2"])).2
    = (gather (λ _, inr [[]; []]) ["i-0a1"]).2
      ++ ["[WARN] No running instance found with Name tag '"
            +:+ Py.strip "ghost" +:+ "'"]
      ++ (gather (λ _, inr [[]; []]) ["i-0b2"]).2.
Proof.
  apply (unknown_name_is_local (λ _, inr [[]; []]) ["i-0a1"] ["i-0b2"] "ghost"
           [[]; []]).
  - done.
  - reflexivity.
  - reflexivity.
  - reflexivity.
Defined.

(** X4: a token that is empty once stripped is skipped: ids and log are
    those of the list without it. *)
Theorem blank_token_skipped (ec2 : inventory) (before after : list string)
    (token : string) :
  Py.strip token = "" →
  resolve_instances ec2 (before ++ token :: after)
  = resolve_instances ec2 (before ++ after).
Proof.
  intros Hblank.
  rewrite !resolve_instances_eq, !gather_app, gather_cons. simpl.
  unfold resolve_item. rewrite Hblank. simpl. done.
Qed.

Lemma blank_token_skipped_witness :
  resolve_instances (λ _, inr [["i-0c3"]]) (["i-0a1"] ++ "   " :: ["web"])
  = resolve_instances (λ _, inr [["i-0c3"]]) (["i-0a1"] ++ ["web"]).
Proof.
  apply (blank_token_skipped (λ _, inr [["i-0c3"]]) ["i-0a1"] ["web"] "   ").
  reflexivity.
Defined.

Lemma elem_of_gather ec2 raw x :
  x ∈ (gather ec2 raw).1 ↔
  ∃ t, t ∈ raw ∧ Py.strip t ≠ ""
       ∧ (is_instance_id (Py.strip t) = true ∧ x = Py.strip t
          ∨ is_instance_id (Py.strip t) = false
            ∧ ∃ rs, ec2 (Py.strip t) = inr rs ∧ x ∈ concat rs).
Proof.
  induction raw as [|t raw IH].
  - simpl. split; [by intros ?%elem_of_nil|]. intros (t & Ht%elem_of_nil & _). done.
  - rewrite gather_cons. simpl. rewrite elem_of_app, IH. clear IH.
    split.
    + intros [Hx|(t' & Hin & Hrest)].
      * exists t. split; [left|].
        unfold resolve_item in Hx.
        destruct (decide (Py.strip t = "")) as [|Hne];
          [by apply elem_of_nil in Hx|].
        split; [done|].
        destruct (is_instance_id (Py.strip t)) eqn:Hid; simpl in Hx.
        { left. apply list_elem_of_singleton in Hx. done. }
        right. split; [done|].
        destruct (ec2 (Py.strip t)) as [e|rs]; simpl in Hx;
          [by apply elem_of_nil in Hx|].
        exists rs. split; [done|].
        destruct (concat rs); [by apply elem_of_nil in Hx|done].
      * exists t'. split; [by right|done].
    + intros (t' & Hin & Hne & Hcase).
      apply elem_of_cons in Hin as [->|Hin]; [|right; eauto].
      left. unfold resolve_item.
      destruct (decide (Py.strip t = "")); [done|].
      destruct Hcase as [[Hid ->]|(Hid & rs & Hec2 & Hx)]; rewrite Hid; simpl.
      * by apply list_elem_of_singleton.
      * rewrite Hec2. destruct (concat rs); [by apply elem_of_nil in Hx|done].
Qed.

(** X5: an identifier is in the resolved list exactly when some token
    produced it: a token that reads as an id and is that identifier once
    stripped, or a name for which the inventory lists it. *)
Theorem resolved_iff_produced (ec2 : inventory) (raw_list : list string)
    (x : string) :
  x ∈ (resolve_instances ec2 raw_list).1 ↔
  ∃ t, t ∈ raw_list ∧ Py.strip t ≠ ""
       ∧ (is_instance_id (Py.strip t) = true ∧ x = Py.strip t
          ∨ is_instance_id (Py.strip t) = false
            ∧ ∃ rs, ec2 (Py.strip t) = inr rs ∧ x ∈ concat rs).
Proof.
  rewrite resolve_instances_eq. simpl.
  rewrite elem_of_dedupe, <- elem_of_gather. set_solver.
Qed.

End ResolverMore.

(** ** Dispatcher: cost of any dispatch, first terminal answer, error field *)

Module DispatcherMore.
Import Dispatcher Observed Scenario DispatcherFacts.

Lemma answers_app tr1 tr2 : answers (tr1 ++ tr2) = answers tr1 ++ answers tr2.
Proof. induction tr1 as [|[d|a] tr1 IH]; simpl; [done..|]. by rewrite IH. Qed.

(** Each turn of the loop polls once, sleeps 2 seconds before and 1 second
    after when the invocation is not visible; the loop may stop early. *)
Lemma poll_loop_cost ssm iid cid n tr :
  (polls tr ≤ polls (poll_loop ssm iid cid n tr).2 ≤ polls tr + n)%nat
  ∧ (not_visible tr ≤ not_visible (poll_loop ssm iid cid n tr).2)%nat
  ∧ (not_visible (poll_loop ssm iid cid n tr).2 + polls tr
     ≤ not_visible tr + polls (poll_loop ssm iid cid n tr).2)%nat
  ∧ elapsed (poll_loop ssm iid cid n tr).2
    - 2 * Z.of_nat (polls (poll_loop ssm iid cid n tr).2)
    - Z.of_nat (not_visible (poll_loop ssm iid cid n tr).2)
    = elapsed tr - 2 * Z.of_nat (polls tr) - Z.of_nat (not_visible tr).
Proof.
  revert tr. induction n as [|n IH]; intros tr; simpl; [lia|].
  destruct (get_command_invocation _ _ _ _) as [st out err| |] eqn:Hinv.
  - destruct (terminal st).
    + simpl. rewrite !polls_app, !not_visible_app, !elapsed_app. simpl. lia.
    + specialize (IH ((tr ++ [Slept 2]) ++ [Polled (Invocation st out err)])).
      rewrite !polls_app, !not_visible_app, !elapsed_app in IH. simpl in IH. lia.
  - specialize (IH (((tr ++ [Slept 2]) ++ [Polled InvocationDoesNotExist])
                      ++ [Slept 1])).
    rewrite !polls_app, !not_visible_app, !elapsed_app in IH. simpl in IH. lia.
  - specialize (IH ((tr ++ [Slept 2]) ++ [Polled OtherException])).
    rewrite !polls_app, !not_visible_app, !elapsed_app in IH. simpl in IH. lia.
Qed.

(** X6: every dispatch, however it ends, polls at most [int(timeout/2)]
    times and sleeps 2 seconds per poll plus 1 second per poll that found
    the invocation not visible: never more than one and a half times a
    positive timeout. *)
Theorem dispatch_cost (ssm : ssm_client) (instance_id command : string)
    (timeout_seconds : Z) :
  let tr := (send_ssm_command ssm instance_id command timeout_seconds).2 in
  (polls tr ≤ poll_budget timeout_seconds)%nat
  ∧ (not_visible tr ≤ polls tr)%nat
  ∧ elapsed tr = 2 * Z.of_nat (polls tr) + Z.of_nat (not_visible tr)
  ∧ 2 * elapsed tr ≤ 3 * Z.max 0 timeout_seconds.
Proof.
  intros tr. subst tr. unfold send_ssm_command.
  pose proof (poll_budget_bound timeout_seconds) as Hb.
  destruct (send_command ssm instance_id command timeout_seconds) as [e|cid].
  - simpl. lia.
  - pose proof (poll_loop_cost ssm instance_id cid
                  (poll_budget timeout_seconds) []) as Hc.
    simpl in Hc. lia.
Qed.

(** The loop stops at the first terminal answer and copies it. *)
Lemma poll_loop_first_terminal ssm iid cid n tr :
  ∃ new,
    (poll_loop ssm iid cid n tr).2 = tr ++ new
    ∧ ((poll_loop ssm iid cid n tr).1 = timed_out iid
       ∧ polls new = n
       ∧ Forall (λ a, is_terminal a = false) (answers new)
       ∨ ∃ pre st out err,
           answers new = pre ++ [Invocation (Some st) out err]
           ∧ Forall (λ a, is_terminal a = false) pre
           ∧ st ∈ ["Success"; "Failed"; "TimedOut"; "Cancelled"]
           ∧ (poll_loop ssm iid cid n tr).1
             = {| instance := iid; status := st; error := None;
                  stdout := out; stderr := err |}
           ∧ (length pre < n)%nat).
Proof.
  revert tr. induction n as [|n IH]; intros tr; simpl.
  - exists []. rewrite app_nil_r. split; [done|]. left. by split_and!.
  - destruct (get_command_invocation _ _ _ _) as [st out err| |] eqn:Hinv.
    + destruct (terminal st) eqn:Hst.
      * exists [Slept 2; Polled (Invocation st out err)]. simpl.
        split; [by rewrite <- app_assoc|]. right.
        apply terminal_Some in Hst as (s & -> & Hs).
        exists [], s, out, err. simpl. split_and!; [done..|lia].
      * destruct (IH ((tr ++ [Slept 2]) ++ [Polled (Invocation st out err)]))
          as (new & -> & Hcase).
        exists ([Slept 2; Polled (Invocation st out err)] ++ new).
        split; [by rewrite <- !app_assoc|].
        destruct Hcase as [(-> & Hp & Hall)|(pre & s & o & e & Ha & Hpre & Hs & -> & Hlen)].
        { left. simpl. split_and!; [done|lia|]. by constructor. }
        right. exists (Invocation st out err :: pre), s, o, e. simpl.
        rewrite Ha. split_and!; [done|by constructor|done|done|lia].
    + destruct (IH (((tr ++ [Slept 2]) ++ [Polled InvocationDoesNotExist])
                      ++ [Slept 1])) as (new & -> & Hcase).
      exists ([Slept 2; Polled InvocationDoesNotExist; Slept 1] ++ new).
      split; [by rewrite <- !app_assoc|].
      destruct Hcase as [(-> & Hp & Hall)|(pre & s & o & e & Ha & Hpre & Hs & -> & Hlen)].
      { left. simpl. split_and!; [done|lia|]. by constructor. }
      right. exists (InvocationDoesNotExist :: pre), s, o, e. simpl.
      rewrite Ha. split_and!; [done|by constructor|done|done|lia].
    + destruct (IH ((tr ++ [Slept 2]) ++ [Polled OtherException]))
        as (new & -> & Hcase).
      exists ([Slept 2; Polled OtherException] ++ new).
      split; [by rewrite <- !app_assoc|].
      destruct Hcase as [(-> & Hp & Hall)|(pre & s & o & e & Ha & Hpre & Hs & -> & Hlen)].
      { left. simpl. split_and!; [done|lia|]. by constructor. }
      right. exists (OtherException :: pre), s, o, e. simpl.
      rewrite Ha. split_and!; [done|by constructor|done|done|lia].
Qed.

(** X7: once the command is accepted, the dispatch ends in one of two
    ways. Either no poll saw a terminal status, the whole budget was used
    and the result is the dispatcher's own [TimedOut] with empty outputs;
    or the last poll, within the budget, is the first to see a terminal
    status and the result carries that status and that answer's outputs:
    nothing is polled after a terminal answer. *)
Theorem first_terminal_answer_wins (ssm : ssm_client)
    (instance_id command : string) (timeout_seconds : Z) (cmd_id : string) :
  send_command ssm instance_id command timeout_seconds = inr cmd_id →
  let r := (send_ssm_command ssm instance_id command timeout_seconds).1 in
  let tr := (send_ssm_command ssm instance_id command timeout_seconds).2 in
  r = timed_out instance_id
  ∧ polls tr = poll_budget timeout_seconds
  ∧ Forall (λ a, is_terminal a = false) (answers tr)
  ∨ ∃ pre st out err,
      answers tr = pre ++ [Invocation (Some st) out err]
      ∧ Forall (λ a, is_terminal a = false) pre
      ∧ st ∈ ["Success"; "Failed"; "TimedOut"; "Cancelled"]
      ∧ r = {| instance := instance_id; status := st; error := None;
               stdout := out; stderr := err |}
      ∧ (length pre < poll_budget timeout_seconds)%nat.
Proof.
  intros Hsend r tr. subst r tr. unfold send_ssm_command. rewrite Hsend.
  destruct (poll_loop_first_terminal ssm instance_id cmd_id
              (poll_budget timeout_seconds) []) as (new & Hnew & Hcase).
  rewrite Hnew. simpl. done.
Qed.

Lemma first_terminal_answer_wins_witness :
  let r := (send_ssm_command one_bad "i-01" "uptime" 300).1 in
  let tr := (send_ssm_command one_bad "i-01" "uptime" 300).2 in
  r = timed_out "i-01"
  ∧ polls tr = poll_budget 300
  ∧ Forall (λ a, is_terminal a = false) (answers tr)
  ∨ ∃ pre st out err,
      answers tr = pre ++ [Invocation (Some st) out err]
      ∧ Forall (λ a, is_terminal a = false) pre
      ∧ st ∈ ["Success"; "Failed"; "TimedOut"; "Cancelled"]
      ∧ r = {| instance := "i-01"; status := st; error := None;
               stdout := out; stderr := err |}
      ∧ (length pre < poll_budget 300)%nat.
Proof.
  apply (first_terminal_answer_wins one_bad "i-01" "uptime" 300 "cmd-1").
  reflexivity.
Defined.

Lemma poll_loop_no_error ssm iid cid n tr :
  error (poll_loop ssm iid cid n tr).1 = None
  ∧ status (poll_loop ssm iid cid n tr).1 ≠ "FailedToSend".
Proof.
  destruct (poll_loop_first_terminal ssm iid cid n tr)
    as (new & _ & [(-> & _)|(pre & st & out & err & _ & _ & Hst & -> & _)]).
  - done.
  - simpl. split; [done|]. intros ->. set_solver.
Qed.

(** X8: a result carries the [error] key exactly when its status is
    [FailedToSend], and then the key holds the text of the exception the
    submission raised; a result obtained by polling never has it. *)
Theorem error_iff_failed_to_send (ssm : ssm_client)
    (instance_id command : string) (timeout_seconds : Z) :
  let r := (send_ssm_command ssm instance_id command timeout_seconds).1 in
  (status r = "FailedToSend" ↔ is_Some (error r))
  ∧ (∀ e, error r = Some e ↔
          send_command ssm instance_id command timeout_seconds = inl e).
Proof.
  intros r. subst r. unfold send_ssm_command.
  destruct (send_command ssm instance_id command timeout_seconds) as [e|cid].
  - simpl. split; [by split; eauto|]. intros e'. split; congruence.
  - destruct (poll_loop_no_error ssm instance_id cid
                (poll_budget timeout_seconds) []) as [Herr Hst].
    rewrite Herr. split.
    + split; [done|]. by intros [? ?].
    + intros e'. split; discriminate.
Qed.

End DispatcherMore.

(** ** Engine and actions: what is logged, what the remote shell reads *)

Module EngineMore.
Import Dispatcher Engine Patch Shell Actions Scenario.
Import DispatcherFacts EngineFacts PatchFacts DispatcherMore.

Lemma log_result_length r : (1 ≤ length (log_result r) ≤ 2)%nat.
Proof.
  unfold log_result. destruct (decide (status r = "Success")); simpl; [|lia].
  destruct (decide (stdout r = "")); simpl; lia.
Qed.

Lemma concat_log_length results :
  (length results ≤ length (concat (log_result <$> results))
   ≤ 2 * length results)%nat.
Proof.
  induction results as [|r results IH]; [simpl; lia|].
  rewrite fmap_cons. cbn [concat]. rewrite length_app. cbn [length].
  pose proof (log_result_length r). lia.
Qed.

Lemma failed_to_send_result ssm iid cmd t :
  status (send_ssm_command ssm iid cmd t).1 = "FailedToSend" →
  stderr (send_ssm_command ssm iid cmd t).1 = "".
Proof.
  unfold send_ssm_command. destruct (send_command ssm iid cmd t) as [e|cid];
    [done|].
  intros Hst. by destruct (poll_loop_no_error ssm iid cid (poll_budget t) []).
Qed.

(** X9: the engine logs every result as it comes, one line, or two for a
    success with output; for an instance whose submission failed the line
    is the status with an empty STDERR part: the text of the send error,
    kept in the result, is not logged. *)
Theorem failed_send_logged_without_error (ssm : ssm_client) (sched : list nat)
    (instance_ids : list string) (command : string) (concurrency : Z) :
  0 < concurrency →
  ∃ results logs,
    run_parallel ssm sched instance_ids command concurrency
    = Py.Returned (results, logs)
    ∧ logs = concat (log_result <$> results)
    ∧ (length results ≤ length logs ≤ 2 * length results)%nat
    ∧ (∀ r, r ∈ results → status r = "FailedToSend" →
         log_result r
         = ["[" +:+ instance r +:+ "] STATUS=FailedToSend; STDERR:" +:+ nl]).
Proof.
  intros Hc. eexists _, _. split; [by apply run_parallel_returns|].
  split; [done|]. split; [apply concat_log_length|].
  intros r. rewrite as_completed_Permutation, elem_of_dispatched.
  intros [_ Hr] Hst.
  assert (stderr r = "") as Herr.
  { rewrite Hr in Hst |- *. by apply failed_to_send_result. }
  unfold log_result. rewrite Hst, Herr.
  destruct (decide ("FailedToSend" = "Success")); [done|].
  by rewrite !app_nil_r.
Qed.

Lemma failed_send_logged_without_error_witness :
  ∃ results logs,
    run_parallel access_denied [1]%nat ["i-01"; "i-02"] "uptime" 4
    = Py.Returned (results, logs)
    ∧ logs = concat (log_result <$> results)
    ∧ (length results ≤ length logs ≤ 2 * length results)%nat
    ∧ (∀ r, r ∈ results → status r = "FailedToSend" →
         log_result r
         = ["[" +:+ instance r +:+ "] STATUS=FailedToSend; STDERR:" +:+ nl]).
Proof.
  apply (failed_send_logged_without_error access_denied [1]%nat
           ["i-01"; "i-02"] "uptime" 4).
  lia.
Defined.

(** X10: whatever the repository path, the branch and the file name
    pattern, the remote shell reads the commands of the git-pull,
    git-checkout and find actions as the same words and operators, each
    of the three texts being one word taken as given: a path or a branch
    cannot add a command, and the shell does not expand the pattern
    before [find] sees it. *)
Theorem action_commands_structure (pid repo_path branch pattern : string) :
  sh_lex pid (git_pull_cmd repo_path)
  = Some [TWord "cd"; TWord repo_path; TOp AndIf; TWord "git"; TWord "pull"]
  ∧ sh_lex pid (git_checkout_cmd repo_path branch)
    = Some [TWord "cd"; TWord repo_path; TOp AndIf; TWord "git"; TWord "fetch";
            TOp AndIf; TWord "git"; TWord "checkout"; TWord branch]
  ∧ sh_lex pid (find_cmd repo_path pattern)
    = Some [TWord "find"; TWord repo_path; TWord "-maxdepth"; TWord "6";
            TWord "-type"; TWord "f"; TWord "-name"; TWord pattern;
            TWord "-print"].
Proof.
  unfold sh_lex, git_pull_cmd, git_checkout_cmd, find_cmd. split_and!.
  - lex_steps. rewrite lex_shlex_quote. lex_steps. reflexivity.
  - lex_steps. rewrite lex_shlex_quote. lex_steps.
    rewrite <- (app_nil_r (shlex_quote branch)), lex_shlex_quote.
    reflexivity.
  - lex_steps. rewrite lex_shlex_quote. lex_steps.
    rewrite lex_shlex_quote. lex_steps. reflexivity.
Qed.

(** A pattern with a star and a path with a space and a semicolon. *)
Example find_cmd_quoted :
  sh_lex "4242" (find_cmd "/opt/my app; reboot" "*.py")
  = Some [TWord "find"; TWord "/opt/my app; reboot"; TWord "-maxdepth";
          TWord "6"; TWord "-type"; TWord "f"; TWord "-name"; TWord "*.py";
          TWord "-print"].
Proof. vm_compute. reflexivity. Qed.

End EngineMore.

(** ** Patch: a second run inserts again *)

Module RemoteMore.
Import Patch Shell Remote PatchFacts RemoteFacts.








End RemoteMore.

(** ** Interactive selection: names looked up, ids read back *)

Module InteractiveFacts.
Import Interactive PatchFacts.

Lemma fill_lookup res insts i d :
  fill res insts !! i = Some d →
  res !! i = Some d
  ∨ ∃ inst, inst ∈ insts ∧ InstanceId inst = Some i
            ∧ d = {| name := default "" (name_tag (Tags inst)); id := i |}.
Proof.
  revert res. induction insts as [|inst insts IH]; intros res; simpl; [by left|].
  destruct (InstanceId inst) as [iid|] eqn:Hid; [|by left].
  intros [Hres|(inst' & Hin & Hid' & Hd)]%IH.
  - destruct (decide (iid = i)) as [->|Hne].
    + rewrite lookup_insert_eq in Hres. injection Hres as <-.
      right. exists inst. split_and!; [left|done|done].
    + rewrite lookup_insert_ne in Hres by done. by left.
  - right. exists inst'. split_and!; [by right|done..].
Qed.

Lemma fill_keeps res insts iid :
  is_Some (res !! iid) → is_Some (fill res insts !! iid).
Proof.
  revert res. induction insts as [|z insts IH]; intros res Hres; [done|].
  simpl. destruct (InstanceId z) as [zi|]; [|done].
  apply IH. destruct (decide (zi = iid)) as [->|Hne].
  - by rewrite lookup_insert_eq.
  - by rewrite lookup_insert_ne.
Qed.

Lemma fill_is_Some res insts inst iid :
  Forall (λ x, is_Some (InstanceId x)) insts →
  inst ∈ insts → InstanceId inst = Some iid → is_Some (fill res insts !! iid).
Proof.
  intros Hall Hin Hid. revert res.
  induction Hall as [|x insts [xi Hx] _ IH]; intros res.
  - by apply elem_of_nil in Hin.
  - simpl. rewrite Hx. apply elem_of_cons in Hin as [<-|Hin].
    + assert (xi = iid) as -> by congruence.
      apply fill_keeps. by rewrite lookup_insert_eq.
    + by apply IH.
Qed.

(** X12: the dict of names: with no id to describe it is empty and the
    inventory is not asked; an entry under a key carries that key as its
    id and, as its name, the value of the first [Name] tag of an instance
    of the answer with that id (empty when it has none); and when every
    instance of the answer has an id, each of them has its entry. *)
Theorem describe_instances_by_ids_entries
    (ec2 : list string → option (list (list ec2_instance)))
    (ids : list string) :
  describe_instances_by_ids ec2 [] = ∅
  ∧ (∀ i d, describe_instances_by_ids ec2 ids !! i = Some d →
       id d = i
       ∧ ∃ reservations inst,
           ec2 ids = Some reservations ∧ inst ∈ concat reservations
           ∧ InstanceId inst = Some i
           ∧ name d = default "" (name_tag (Tags inst)))
  ∧ (∀ reservations inst i,
       ids ≠ [] → ec2 ids = Some reservations →
       Forall (λ x, is_Some (InstanceId x)) (concat reservations) →
       inst ∈ concat reservations → InstanceId inst = Some i →
       is_Some (describe_instances_by_ids ec2 ids !! i)).
Proof.
  split_and!.
  - done.
  - intros i d. unfold describe_instances_by_ids.
    destruct ids as [|i0 ids']; [by rewrite lookup_empty|].
    destruct (ec2 (i0 :: ids')) as [rs|]; [|by rewrite lookup_empty].
    intros [Hres|(inst & Hin & Hid & ->)]%fill_lookup.
    + by rewrite lookup_empty in Hres.
    + simpl. split; [done|]. exists rs, inst. done.
  - intros rs inst i Hne Hec2 Hall Hin Hid. unfold describe_instances_by_ids.
    destruct ids as [|i0 ids']; [done|]. rewrite Hec2.
    by apply (fill_is_Some _ _ inst).
Qed.

Lemma hex_run_app h s :
  Py.forallb Py.is_hex h = true → hex_run (h +:+ s) = h +:+ hex_run s.
Proof.
  induction h as [|c h IH]; [done|].
  intros [Hc Hh]%forallb_cons. rewrite !app_cons. simpl. rewrite Hc.
  by rewrite IH.
Qed.

Lemma match_here_id iid rest :
  well_formed iid → match_here (iid +:+ String ")" rest) = Some iid.
Proof.
  intros (h & -> & Hne & Hhex). rewrite app_assoc, !app_cons, app_nil_l.
  simpl. rewrite (hex_run_app h _ Hhex). simpl. rewrite app_nil_r.
  destruct (decide (h = "")); done.
Qed.

Lemma match_here_None_app a s c t :
  match_here (String a s) = None → Py.is_hex c = false → c ≠ "-"%char →
  match_here (String a s +:+ String c t) = None.
Proof.
  intros Hs Hc Hdash.
  destruct s as [|b rest].
  - rewrite app_cons, app_nil_l. simpl.
    destruct (Ascii.eqb c "-") eqn:Hcd;
      [by apply Ascii.eqb_eq in Hcd|].
    by rewrite andb_false_r.
  - rewrite !app_cons. simpl in *.
    destruct (Ascii.eqb a "i" && Ascii.eqb b "-"); [|done].
    destruct (decide (hex_run rest = "")) as [Hrun|]; [|done].
    assert (hex_run (rest +:+ String c t) = "") as ->; [|done].
    destruct rest as [|r rest]; simpl in *; [by rewrite Hc|].
    destruct (Py.is_hex r); done.
Qed.

Lemma search_id_cons a s :
  search_id (String a s)
  = match match_here (String a s) with
    | Some m => Some m
    | None => search_id s
    end.
Proof. reflexivity. Qed.

Lemma search_id_None_app s c t :
  search_id s = None → Py.is_hex c = false → c ≠ "-"%char →
  search_id (s +:+ String c t) = search_id (String c t).
Proof.
  intros Hs Hc Hdash. induction s as [|a s IH]; [done|].
  rewrite search_id_cons in Hs.
  destruct (match_here (String a s)) eqn:Hm; [done|].
  rewrite app_cons, search_id_cons.
  rewrite <- app_cons, (match_here_None_app _ _ _ _ Hm Hc Hdash).
  by apply IH.
Qed.

(** A name without the look of an id inside lets the id be read back. *)
Lemma search_id_choice shown iid :
  search_id shown = None → well_formed iid →
  search_id (shown +:+ " (" +:+ iid +:+ ")") = Some iid.
Proof.
  intros Hshown Hiid.
  rewrite (app_cons " " "(" _), (search_id_None_app _ _ _ Hshown) by done.
  rewrite app_cons, app_nil_l, !search_id_cons.
  assert (match_here (String " " (String "(" (iid +:+ ")"))) = None) as ->
    by done.
  assert (match_here (String "(" (iid +:+ ")")) = None) as ->.
  { destruct (iid +:+ ")"); done. }
  pose proof (match_here_id iid "" Hiid) as Hm.
  destruct Hiid as (h & -> & _).
  change (("i-" +:+ h) +:+ ")") with (String "i" (("-" +:+ h) +:+ ")")) in *.
  by rewrite search_id_cons, Hm.
Qed.

Lemma recover_choices desc ids :
  Forall (λ iid, well_formed iid ∧ search_id (shown_name desc iid) = None) ids →
  recover (choice desc <$> ids) = Ids ids.
Proof.
  induction 1 as [|iid ids [Hwf Hclean] _ IH]; [done|].
  rewrite fmap_cons. cbn [recover]. unfold choice at 1.
  by rewrite (search_id_choice _ _ Hclean Hwf), IH.
Qed.

(** X13: when the operator ticks lines of the checkbox, the instances
    returned are the ticked ones, in the order shown, provided each ticked
    id has the form [i-] and hexadecimal digits and the name shown with it
    holds no [i-] followed by a hexadecimal digit. *)
Theorem selection_recovers_ids (pages : option (list (list string)))
    (ec2 : list string → option (list (list ec2_instance)))
    (ask : list string → option (list string)) (ticked : list string) :
  let ssm_ids := get_ssm_instances pages in
  let desc := describe_instances_by_ids ec2 ssm_ids in
  ticked ⊆ ssm_ids →
  Forall (λ iid, well_formed iid ∧ search_id (shown_name desc iid) = None)
    ticked →
  ask (choice desc <$> ssm_ids) = Some (choice desc <$> ticked) →
  interactive_select_instances pages ec2 ask = Ids ticked.
Proof.
  intros ssm_ids desc Hsub Hok Hask. unfold interactive_select_instances.
  fold ssm_ids. destruct ssm_ids as [|i0 rest] eqn:Hids.
  - destruct ticked as [|t ticked']; [done|].
    exfalso. apply (not_elem_of_nil t), Hsub. by left.
  - fold desc. rewrite Hask.
    destruct ticked as [|t ticked']; [done|].
    by apply recover_choices.
Qed.

Lemma selection_recovers_ids_witness :
  interactive_select_instances (Some [["i-0a1"; "i-0b2"]; ["i-0c3"]])
    (λ _, Some [[ {| InstanceId := Some "i-0b2";
                     Tags := [ {| Key := Some "env"; Value := Some "prod" |};
                               {| Key := Some "Name"; Value := Some "web" |} ] |} ]])
    (λ _, Some ["web (i-0b2)"; "NoName (i-0c3)"])
  = Ids ["i-0b2"; "i-0c3"].
Proof.
  apply (selection_recovers_ids (Some [["i-0a1"; "i-0b2"]; ["i-0c3"]])
           (λ _, Some [[ {| InstanceId := Some "i-0b2";
                            Tags := [ {| Key := Some "env"; Value := Some "prod" |};
                                      {| Key := Some "Name"; Value := Some "web" |} ] |} ]])
           (λ _, Some ["web (i-0b2)"; "NoName (i-0c3)"])
           ["i-0b2"; "i-0c3"]).
  - intros x Hx. cbn [get_ssm_instances concat app].
    apply elem_of_cons in Hx as [->|Hx]; [right; left|].
    apply elem_of_cons in Hx as [->|Hx]; [right; right; left|].
    by apply elem_of_nil in Hx.
  - apply Forall_cons. split.
    { split; [|vm_compute; reflexivity].
      exists "0b2". split; [reflexivity|]. split; [discriminate|reflexivity]. }
    apply Forall_cons. split; [|by apply Forall_nil].
    split; [|vm_compute; reflexivity].
    exists "0c3". split; [reflexivity|]. split; [discriminate|reflexivity].
  - reflexivity.
Defined.

(** A name that holds the look of an id is read back instead of the id. *)
Example name_read_as_id :
  recover ["api-backend (i-0123)"] = Ids ["i-bac"].
Proof. vm_compute. reflexivity. Qed.

(** A line without anything like an id ends the selection with an error. *)
Example nothing_to_read_back : recover ["web"] = AttributeError.
Proof. vm_compute. reflexivity. Qed.

End InteractiveFacts.
